(** * go_scamalytics_py: the page extractor and the batch dispatcher

    A shallow embedding of [ipchecker/ipchecker.py] and of the batch loop of
    [cli/cli.py], with the properties of the extractor and of the
    dispatcher proved over it.

    Conventions of the model.
    - A Python [str] is a [string]; each [ascii] stands for one code point
      below 256, so that the character classes of the regular expressions
      ([\s], [.], [$]) are the ones Python uses on that range.
    - A search that returns [-1] in Python returns [None] here.
    - A Python [dict] with string keys is a [gmap string _].
    - A call that may raise returns an [outcome]: [Returns v] or
      [Raises e].
    - [json.loads], the network and the random generator are not code of
      the repository: the first is a parameter [json_loads] of the
      extractor (with a reference decoder [Json.loads] to instantiate it),
      the other two are oracles passed to [CheckIP]. *)

From Stdlib Require Import ZArith Lia List Ascii String.
From stdpp Require Import gmap strings list fin_maps.

Set Warnings "-register-all".
Open Scope string_scope.

(* ===================================================================== *)
(** * Python strings *)
(* ===================================================================== *)

Module PyStr.

Definition dquote : ascii := "034"%char.
Definition squote : ascii := "039"%char.
Definition newline : ascii := "010"%char.

(** [s[n:]] *)
Fixpoint drop (n : nat) (s : string) : string :=
  match n, s with
  | S n', String _ s' => drop n' s'
  | _, _ => s
  end.

(** [s[:n]] *)
Definition take (n : nat) (s : string) : string := substring 0 n s.

(** [s[a:b]] for [0 <= a], [0 <= b] *)
Definition slice (s : string) (a b : nat) : string := substring a (b - a) s.

(** [text.find(sub, start)], with [None] for [-1] *)
Definition find (sub text : string) (start : nat) : option nat :=
  String.index start sub text.

(** The number of leading characters of [s] that satisfy [p]. *)
Fixpoint span (p : ascii -> bool) (s : string) : nat :=
  match s with
  | String c s' => if p c then S (span p s') else 0
  | EmptyString => 0
  end.

(** [Py_UNICODE_ISSPACE] on code points below 256: tab to carriage return,
    the separators 28 to 31, the space, NEL (133) and the no-break space
    (160).  It is the class [\s] of a [str] pattern. *)
Definition is_space (c : ascii) : bool :=
  let n := nat_of_ascii c in
  ((9 <=? n)%nat && (n <=? 13)%nat) || ((28 <=? n)%nat && (n <=? 32)%nat)
  || (n =? 133)%nat || (n =? 160)%nat.

(** Replacement of every non-overlapping match, scanning from the left:
    the common engine of [str.replace] and [re.sub].  [m s] is the length
    of the match of the pattern at the head of [s], if there is one;
    [skip] counts the characters of the current match that are still to
    be dropped.  No pattern of this program matches the empty string, so
    a match of length 0 is not given a meaning. *)
Fixpoint sub_go (m : string -> option nat) (repl : string)
         (skip : nat) (s : string) : string :=
  match s with
  | EmptyString => EmptyString
  | String c s' =>
      match skip with
      | S k => sub_go m repl k s'
      | O =>
          match m s with
          | Some (S n) => repl ++ sub_go m repl n s'
          | _ => String c (sub_go m repl 0 s')
          end
      end
  end.

Definition sub_all (m : string -> option nat) (repl s : string) : string :=
  sub_go m repl 0 s.

(** The pattern that is the literal text [old]. *)
Definition literal (old : string) (s : string) : option nat :=
  if String.prefix old s then Some (String.length old) else None.

(** [s.replace(old, new)] for a non-empty [old] *)
Definition replace (old new s : string) : string :=
  sub_all (literal old) new s.

(** [re.search]: the group of the leftmost match. *)
Fixpoint search {A} (m : string -> option A) (s : string) : option A :=
  match m s with
  | Some g => Some g
  | None =>
      match s with
      | EmptyString => None
      | String _ s' => search m s'
      end
  end.

End PyStr.

(* ===================================================================== *)
(** * The regular expressions of [ipchecker.py]

    Each pattern is deterministic at a given start position: a greedy or
    lazy repetition is always followed by a character outside its class, so
    the repetition takes the whole run and nothing is gained by
    backtracking.  Each matcher below returns the length of the match at
    the head of its argument. *)
(* ===================================================================== *)

Module Re.
Import PyStr.

(** [<[^>]+>] *)
Definition tag (s : string) : option nat :=
  match s with
  | String "<"%char r =>
      let n := span (fun c => negb (Ascii.eqb c ">")) r in
      match n, drop n r with
      | S _, String ">"%char _ => Some (n + 2)
      | _, _ => None
      end
  | _ => None
  end.

(** [//.*?$] with [re.MULTILINE]: [.] is any character but the newline,
    [$] holds at the end of the text and before a newline. *)
Definition line_comment (s : string) : option nat :=
  match s with
  | String "/"%char (String "/"%char r) =>
      Some (2 + span (fun c => negb (Ascii.eqb c newline)) r)
  | _ => None
  end.

(** [,\s*}] and [,\s*]]: a comma, white space, the closing character. *)
Definition comma_before (close : ascii) (s : string) : option nat :=
  match s with
  | String ","%char r =>
      let n := span is_space r in
      match drop n r with
      | String c _ => if Ascii.eqb c close then Some (n + 2) else None
      | EmptyString => None
      end
  | _ => None
  end.

(** The pattern of the three field searches, [Qkey Q\s*:\s*Q([^Q]+)Q]
    with the double quote written Q and the key one of ip, score and
    risk; the result is the first group of the match at the head of
    [s]. *)
Definition field (key : string) (s : string) : option string :=
  let quoted := String dquote (key ++ String dquote EmptyString) in
  if String.prefix quoted s then
    let r1 := drop (String.length quoted) s in
    match drop (span is_space r1) r1 with
    | String ":"%char r2 =>
        match drop (span is_space r2) r2 with
        | String q r3 =>
            if Ascii.eqb q dquote then
              let n := span (fun c => negb (Ascii.eqb c dquote)) r3 in
              match n, drop n r3 with
              | S _, String _ _ => Some (take n r3)
              | _, _ => None
              end
            else None
        | EmptyString => None
        end
    | _ => None
    end
  else None.

End Re.

(* ===================================================================== *)
(** * Balanced-block extraction: [_extract_json_block_from_text] *)
(* ===================================================================== *)

Definition marker : string := "IP Fraud Risk API".

(** [marker_pos]: the position of the anchor phrase, 0 when it is absent. *)
Definition marker_pos (text : string) : nat :=
  match PyStr.find marker text 0 with
  | Some p => p
  | None => 0
  end.

(** [start]: the first opening brace at or after [marker_pos]. *)
Definition first_brace (text : string) : option nat :=
  PyStr.find "{" text (marker_pos text).

(** The [while i < len(text)] loop: [s] is [text[i:]]; the result is the
    value of [end] when the loop is left, [None] when it stays [None]. *)
Fixpoint scan (s : string) (depth : Z) (i : nat) : option nat :=
  match s with
  | EmptyString => None
  | String ch s' =>
      if Ascii.eqb ch "{" then scan s' (depth + 1)%Z (i + 1)
      else if Ascii.eqb ch "}" then
        let depth := (depth - 1)%Z in
        if (depth =? 0)%Z then Some (i + 1) else scan s' depth (i + 1)
      else scan s' depth (i + 1)
  end.

(** The scanner reads braces only: replacing every other character by any
    character that is not a brace (a quote by a letter, say) changes
    nothing in where the block ends. *)
Definition is_brace (c : ascii) : bool := Ascii.eqb c "{" || Ascii.eqb c "}".

Fixpoint same_braces (s t : string) : Prop :=
  match s, t with
  | EmptyString, EmptyString => True
  | String a s', String b t' =>
      (if is_brace a then a = b else is_brace b = false) ∧ same_braces s' t'
  | _, _ => False
  end.

(** The clean-up applied to the candidate block, in the order of the
    source. *)
Definition sanitize (candidate : string) : string :=
  let candidate := PyStr.sub_all Re.tag EmptyString candidate in
  let candidate := PyStr.replace "..." EmptyString candidate in
  let candidate := PyStr.sub_all Re.line_comment EmptyString candidate in
  let candidate := PyStr.sub_all (Re.comma_before "}") "}" candidate in
  let candidate := PyStr.sub_all (Re.comma_before "]") "]" candidate in
  candidate.

(** The block between [start] and [end], before the clean-up. *)
Definition raw_block (text : string) : option string :=
  match first_brace text with
  | None => None
  | Some start =>
      match scan (PyStr.drop start text) 0 start with
      | None => None
      | Some end_ => Some (PyStr.slice text start end_)
      end
  end.

Definition _extract_json_block_from_text (text : string) : option string :=
  match raw_block text with
  | None => None
  | Some candidate => Some (sanitize candidate)
  end.

(** Test texts are written with single quotes; [q] turns them into the
    double quotes of the page. *)
Definition q (s : string) : string :=
  PyStr.replace (String PyStr.squote EmptyString)
                (String PyStr.dquote EmptyString) s.

(* ===================================================================== *)
(** * Python values, exceptions and results *)
(* ===================================================================== *)

(** A [float] read from a decimal literal stands for the binary64 number
    nearest to [(-1)^neg * m * 10^e]; the two infinities and NaN are the
    values of the literals Infinity, -Infinity and NaN. *)
Inductive pyfloat : Type :=
| FDec (neg : bool) (m : N) (e : Z)
| FInf (neg : bool)
| FNaN.

(** The values [json.loads] returns, which are also the values a result
    dictionary holds. *)
Inductive pyval : Type :=
| PNone
| PBool (b : bool)
| PInt (n : Z)
| PFloat (f : pyfloat)
| PStr (s : string)
| PList (l : list pyval)
| PDict (d : gmap string pyval).

Abbreviation pydict := (gmap string pyval).

(** A decimal rounds to zero when it is zero or at most half the least
    subnormal, [2^-1075] (the tie goes to the even neighbour, zero). *)
Definition float_is_zero (f : pyfloat) : bool :=
  match f with
  | FDec _ m e =>
      (m =? 0)%N
      || ((e <? 0)%Z && (Z.of_N m * 2 ^ 1075 <=? 10 ^ (- e))%Z)
  | FInf _ | FNaN => false
  end.

(** The truth value Python gives to [v] in [if not v]. *)
Definition truthy (v : pyval) : bool :=
  match v with
  | PNone => false
  | PBool b => b
  | PInt n => negb (n =? 0)%Z
  | PFloat f => negb (float_is_zero f)
  | PStr s => negb (String.length s =? 0)%nat
  | PList l => negb (List.length l =? 0)%nat
  | PDict d => negb (size d =? 0)%nat
  end.

(** The truth value of an [Optional[str]]. *)
Definition truthy_opt_str (o : option string) : bool :=
  match o with
  | None => false
  | Some s => negb (String.length s =? 0)%nat
  end.

(** The exception classes the program meets, all of them subclasses of
    [Exception]; [RequestException] stands for [requests.RequestException]
    and its subclasses, [OtherException] for any class not named here. *)
Inductive exc_class : Type :=
| RequestException | AttributeError | IndexError | KeyError | ValueError
| OtherException.

(** A raised exception [e], with [str(e)]. *)
Record pyexc : Type := Exc { exc_cls : exc_class; exc_str : string }.

Inductive outcome (A : Type) : Type :=
| Returns (a : A)
| Raises (e : pyexc).
Arguments Returns {A} a.
Arguments Raises {A} e.

#[global] Instance outcome_ret : MRet outcome := fun A a => Returns a.
#[global] Instance outcome_bind : MBind outcome := fun A B f o =>
  match o with
  | Returns a => f a
  | Raises e => Raises e
  end.

(* ===================================================================== *)
(** * A reference decoder for [json.loads]

    The decoder of Python's [json] module with its default settings on
    texts of code points below 256: strict strings, the literals NaN,
    Infinity and -Infinity accepted, a later duplicate key replacing an
    earlier one.  It is idealised in two ways: nesting is not limited by a
    recursion depth and integers are not limited in their number of
    digits.  An escape for a code point from 256 on has no character in
    the model and is rejected. *)
(* ===================================================================== *)

Module Json.
Import PyStr.

(** The white space of JSON: space, tab, line feed, carriage return. *)
Definition is_ws (c : ascii) : bool :=
  Ascii.eqb c " " || Ascii.eqb c "009" || Ascii.eqb c "010"
  || Ascii.eqb c "013".

Definition skip_ws (s : string) : string := drop (span is_ws s) s.

Definition is_digit (c : ascii) : bool :=
  let n := nat_of_ascii c in (48 <=? n)%nat && (n <=? 57)%nat.

Definition digit_val (c : ascii) : N := N_of_ascii c - 48.

(** The value of a run of decimal digits, most significant first. *)
Fixpoint digits_val (acc : N) (s : string) : N :=
  match s with
  | String c s' => digits_val (10 * acc + digit_val c) s'
  | EmptyString => acc
  end.

Definition hex_val (c : ascii) : option N :=
  let n := N_of_ascii c in
  if (48 <=? n)%N && (n <=? 57)%N then Some (n - 48)%N
  else if (65 <=? n)%N && (n <=? 70)%N then Some (n - 55)%N
  else if (97 <=? n)%N && (n <=? 102)%N then Some (n - 87)%N
  else None.

(** The character a one-letter escape stands for. *)
Definition unescape (c : ascii) : option ascii :=
  if Ascii.eqb c dquote then Some dquote
  else if Ascii.eqb c "\" then Some "\"%char
  else if Ascii.eqb c "/" then Some "/"%char
  else if Ascii.eqb c "b" then Some "008"%char
  else if Ascii.eqb c "f" then Some "012"%char
  else if Ascii.eqb c "n" then Some "010"%char
  else if Ascii.eqb c "r" then Some "013"%char
  else if Ascii.eqb c "t" then Some "009"%char
  else None.

Definition cons_fst (c : ascii) (o : option (string * string))
  : option (string * string) :=
  match o with
  | Some (k, r) => Some (String c k, r)
  | None => None
  end.

(** [scanstring], strict: [s] follows the opening quote; the result is
    the decoded string and the text after the closing quote. *)
Fixpoint scanstring (s : string) : option (string * string) :=
  match s with
  | EmptyString => None
  | String c r =>
      if Ascii.eqb c dquote then Some (EmptyString, r)
      else if Ascii.eqb c "\" then
        match r with
        | String e r' =>
            match unescape e with
            | Some c' => cons_fst c' (scanstring r')
            | None =>
                if Ascii.eqb e "u" then
                  match r' with
                  | String h1 (String h2 (String h3 (String h4 r''))) =>
                      match hex_val h1, hex_val h2, hex_val h3, hex_val h4
                      with
                      | Some a, Some b, Some c, Some d =>
                          let u := (((a * 16 + b) * 16 + c) * 16 + d)%N in
                          if (u <? 256)%N
                          then cons_fst (ascii_of_N u) (scanstring r'')
                          else None
                      | _, _, _, _ => None
                      end
                  | _ => None
                  end
                else None
            end
        | EmptyString => None
        end
      else if (nat_of_ascii c <? 32)%nat then None
      else cons_fst c (scanstring r)
  end.

(** The number at the head of [s], after its optional minus sign: an
    integer part (a single 0, or a run of digits that does not start with
    0), an optional fraction (a dot and at least one digit) and an
    optional exponent (e or E, an optional sign, at least one digit).
    With neither fraction nor exponent the value is an [int]. *)
Definition number (neg : bool) (s : string) : option (pyval * string) :=
  let ni :=
    match s with
    | String "0"%char _ => 1
    | _ => span is_digit s
    end in
  match ni with
  | O => None
  | S _ =>
      let int_part := take ni s in
      let r := drop ni s in
      let '(frac, r) :=
        match r with
        | String "."%char r1 =>
            match span is_digit r1 with
            | O => (None, r)
            | S _ as nf => (Some (take nf r1), drop nf r1)
            end
        | _ => (None, r)
        end in
      let '(exp, r) :=
        match r with
        | String c r1 =>
            if Ascii.eqb c "e" || Ascii.eqb c "E" then
              let '(eneg, r2) :=
                match r1 with
                | String "-"%char r2 => (true, r2)
                | String "+"%char r2 => (false, r2)
                | _ => (false, r1)
                end in
              match span is_digit r2 with
              | O => (None, r)
              | S _ as ne =>
                  let v := Z.of_N (digits_val 0 (take ne r2)) in
                  (Some (if eneg then - v else v)%Z, drop ne r2)
              end
            else (None, r)
        | EmptyString => (None, r)
        end in
      match frac, exp with
      | None, None =>
          let v := Z.of_N (digits_val 0 int_part) in
          Some (PInt (if neg then - v else v)%Z, r)
      | _, _ =>
          let fd := default EmptyString frac in
          let m := digits_val 0 (int_part ++ fd) in
          let e := (default 0 exp - Z.of_nat (String.length fd))%Z in
          Some (PFloat (FDec neg m e), r)
      end
  end.

(** The values that are neither strings, objects nor arrays, tried in
    the order of the scanner. *)
Definition scalar (s : string) : option (pyval * string) :=
  if String.prefix "null" s then Some (PNone, drop 4 s)
  else if String.prefix "true" s then Some (PBool true, drop 4 s)
  else if String.prefix "false" s then Some (PBool false, drop 5 s)
  else
    let num :=
      match s with
      | String "-"%char r => number true r
      | _ => number false s
      end in
    match num with
    | Some res => Some res
    | None =>
        if String.prefix "NaN" s then Some (PFloat FNaN, drop 3 s)
        else if String.prefix "Infinity" s
        then Some (PFloat (FInf false), drop 8 s)
        else if String.prefix "-Infinity" s
        then Some (PFloat (FInf true), drop 9 s)
        else None
    end.

(** [scan_once], [JSONObject] and [JSONArray].  [value] reads the value
    at the head of [s]; [members] reads the members of an object from the
    opening quote of a key on, [elements] the elements of an array from
    the head of a value on; each returns the text that follows.  One unit
    of [fuel] is spent for each value, member and element. *)
Fixpoint value (fuel : nat) (s : string) {struct fuel}
  : option (pyval * string) :=
  match fuel with
  | O => None
  | S fuel =>
      match s with
      | EmptyString => None
      | String c r =>
          if Ascii.eqb c dquote then
            match scanstring r with
            | Some (k, r') => Some (PStr k, r')
            | None => None
            end
          else if Ascii.eqb c "{" then
            if String.prefix "}" (skip_ws r)
            then Some (PDict ∅, drop 1 (skip_ws r))
            else members fuel (skip_ws r) ∅
          else if Ascii.eqb c "[" then
            if String.prefix "]" (skip_ws r)
            then Some (PList [], drop 1 (skip_ws r))
            else elements fuel (skip_ws r) []
          else scalar s
      end
  end
with members (fuel : nat) (s : string) (acc : pydict) {struct fuel}
  : option (pyval * string) :=
  match fuel with
  | O => None
  | S fuel =>
      if String.prefix (String dquote EmptyString) s then
        match scanstring (drop 1 s) with
        | Some (k, r1) =>
            if String.prefix ":" (skip_ws r1) then
              match value fuel (skip_ws (drop 1 (skip_ws r1))) with
              | Some (v, r2) =>
                  let acc := <[k := v]> acc in
                  let r3 := skip_ws r2 in
                  if String.prefix "}" r3 then Some (PDict acc, drop 1 r3)
                  else if String.prefix "," r3
                  then members fuel (skip_ws (drop 1 r3)) acc
                  else None
              | None => None
              end
            else None
        | None => None
        end
      else None
  end
with elements (fuel : nat) (s : string) (acc : list pyval) {struct fuel}
  : option (pyval * string) :=
  match fuel with
  | O => None
  | S fuel =>
      match value fuel s with
      | Some (v, r1) =>
          let acc := (acc ++ [v])%list in
          let r2 := skip_ws r1 in
          if String.prefix "]" r2 then Some (PList acc, drop 1 r2)
          else if String.prefix "," r2
          then elements fuel (skip_ws (drop 1 r2)) acc
          else None
      | None => None
      end
  end.

(** [json.loads(s)]: [None] when the decoder raises.  Every value,
    member and element read takes at least one character and one or two
    units of fuel, so twice the length of the text is fuel enough
    ([JsonFacts.loads_fuel]). *)
Definition loads (s : string) : option pyval :=
  match value (S (2 * String.length s)) (skip_ws s) with
  | Some (v, r) =>
      if (String.length (skip_ws r) =? 0)%nat then Some v else None
  | None => None
  end.

End Json.

(* ===================================================================== *)
(** * The lookup of one address: [CheckIP] *)
(* ===================================================================== *)

Definition _DEFAULT_USER_AGENTS : list string :=
  [ "Mozilla/5.0 (Windows NT 10.0; Win64; x64) AppleWebKit/537.36 (KHTML, like Gecko) Chrome/132.0.0.0 Safari/537.3";
    "Mozilla/5.0 (Macintosh; Intel Mac OS X 10_15_7) AppleWebKit/605.1.15 (KHTML, like Gecko) Version/18.1.1 Safari/605.1.1";
    "Mozilla/5.0 (X11; Linux x86_64) AppleWebKit/537.36 (KHTML, like Gecko) Chrome/120.0.0.0 Safari/537.36" ].

Definition _REQUEST_TIMEOUT : nat := 15.

(** [random.choice(seq)]: [rnd] is the number the generator draws. *)
Definition random_choice (rnd : nat) (seq : list string) : outcome string :=
  match seq !! (rnd mod List.length seq) with
  | Some x => Returns x
  | None => Raises (Exc IndexError "Cannot choose from an empty sequence")
  end.

Definition _choose_user_agent (user_agents : option (list string))
           (rnd : nat) : outcome string :=
  match user_agents with
  | Some (ua :: uas) => random_choice rnd (ua :: uas)
  | Some [] | None => random_choice rnd _DEFAULT_USER_AGENTS
  end.

(** What [_fetch_page] sends. *)
Record request : Type := Request {
  req_url : string;
  req_headers : list (string * string);
  req_timeout : nat
}.

(** The network: [s.get(url, headers=..., timeout=...)], followed by
    [raise_for_status()] and [.text]. *)
Definition network : Type := request -> outcome string.

Definition _fetch_page (ip user_agent : string) (net : network)
  : outcome string :=
  net {| req_url := "https://scamalytics.com/ip/" ++ ip;
         req_headers :=
           [ ("User-Agent", user_agent);
             ("Accept",
              "text/html,application/xhtml+xml,application/xml;q=0.9,*/*;q=0.8") ];
         req_timeout := _REQUEST_TIMEOUT |}.

(** The truth value of the result of [re.search]. *)
Definition matched {A} (m : option A) : bool :=
  match m with
  | Some _ => true
  | None => false
  end.

(** The three searches of the degraded path and the result built from
    them (the body of [if not json_block:]). *)
Definition fallback_scrape (ip text : string) : pydict :=
  let m_ip := PyStr.search (Re.field "ip") text in
  let m_score := PyStr.search (Re.field "score") text in
  let m_risk := PyStr.search (Re.field "risk") text in
  if matched m_ip || matched m_score || matched m_risk then
    let result : pydict := {[ "ip" := PStr ip ]} in
    let result :=
      match m_ip with
      | Some g => <["ip" := PStr g]> result
      | None => result
      end in
    let result :=
      match m_score with
      | Some g => <["score" := PStr g]> result
      | None => result
      end in
    let result :=
      match m_risk with
      | Some g => <["risk" := PStr g]> result
      | None => result
      end in
    result
  else {[ "ip" := PStr ip; "error" := PStr "no_json_block_found" ]}.

(** [if k in parsed: out[k] = parsed[k]] *)
Definition copy_if_present (parsed : pydict) (out : pydict) (k : string)
  : pydict :=
  match parsed !! k with
  | Some v => <[k := v]> out
  | None => out
  end.

(** The result built from a parsed object (from [out = ...] to
    [return out]). *)
Definition promote_fields (ip : string) (parsed : pydict) : pydict :=
  let out : pydict := {[ "ip" := default (PStr ip) (parsed !! "ip") ]} in
  let out := copy_if_present parsed out "score" in
  let out := copy_if_present parsed out "risk" in
  let out :=
    foldl (copy_if_present parsed) out
          [ "is_blacklisted_external"; "operator"; "hostname"; "asn" ] in
  <["_raw_parsed" := PDict parsed]> out.

(** The name of the type of a value, as in the message of an
    [AttributeError]. *)
Definition type_name (v : pyval) : string :=
  match v with
  | PNone => "NoneType"
  | PBool _ => "bool"
  | PInt _ => "int"
  | PFloat _ => "float"
  | PStr _ => "str"
  | PList _ => "list"
  | PDict _ => "dict"
  end.

(** The test [not json_block] of [CheckIP]: whether the degraded path, the
    three field searches, is taken for the page [text]. *)
Definition takes_fallback (text : string) : bool :=
  negb (truthy_opt_str (_extract_json_block_from_text text)).

Section Extractor.

(** [json.loads]: [None] when it raises (an [Exception], which
    [_safe_json_loads] catches). *)
Variable json_loads : string -> option pyval.

(** The result is what [json.loads] returns, or Python's [None] when
    both attempts raise. *)
Definition _safe_json_loads (s : string) : pyval :=
  match json_loads s with
  | Some v => v
  | None =>
      let s2 := PyStr.replace (String PyStr.squote EmptyString)
                              (String PyStr.dquote EmptyString) s in
      match json_loads s2 with
      | Some v => v
      | None => PNone
      end
  end.

(** [CheckIP] from [json_block = ...] on: everything after the fetch has
    returned the page [text]. *)
Definition CheckIP_extract (ip text : string) : outcome pydict :=
  let json_block := _extract_json_block_from_text text in
  if takes_fallback text then
    Returns (fallback_scrape ip text)
  else
    let json_block := default EmptyString json_block in
    let parsed := _safe_json_loads json_block in
    if negb (truthy parsed) then
      Returns {[ "ip" := PStr ip;
                 "error" := PStr "json_parse_failed";
                 "raw" := PStr (PyStr.take 200 json_block) ]}
    else
      match parsed with
      | PDict parsed => Returns (promote_fields ip parsed)
      | v =>
          Raises (Exc AttributeError
                      ("'" ++ type_name v
                           ++ "' object has no attribute 'get'"))
      end.

(** [CheckIP(ip, user_agents_list, session)]: [rnd] is the draw of the
    random generator, [net] the network reached through the session. *)
Definition CheckIP (ip : string) (user_agents_list : option (list string))
           (rnd : nat) (net : network) : outcome pydict :=
  ua ← _choose_user_agent user_agents_list rnd;
  match _fetch_page ip ua net with
  | Raises (Exc RequestException msg) =>
      Returns {[ "ip" := PStr ip; "error" := PStr ("http_error: " ++ msg) ]}
  | Raises e => Raises e
  | Returns text => CheckIP_extract ip text
  end.

(* =================================================================== *)
(** * The batch: the pool loop of [Start] *)
(* =================================================================== *)

(** What one task meets when it runs: its random draw and the network. *)
Record task_world : Type := TaskWorld {
  tw_rnd : nat;
  tw_net : network
}.

Definition process_ip (ip : string) (user_agents : list string)
           (w : task_world) : outcome pydict :=
  CheckIP ip (Some user_agents) (tw_rnd w) (tw_net w).

(** A [ThreadPoolExecutor].  A future is named by its rank of submission;
    [ex_work] holds, for each future, what its call returns or raises
    once a worker has run it. *)
Record executor : Type := Executor {
  ex_max_workers : Z;
  ex_work : list (outcome pydict)
}.

(** [ThreadPoolExecutor(max_workers=threads)] *)
Definition new_executor (threads : Z) : outcome executor :=
  if (threads <=? 0)%Z
  then Raises (Exc ValueError "max_workers must be greater than 0")
  else Returns {| ex_max_workers := threads; ex_work := [] |}.

(** [ex.submit(fn, ...)]: a new future, distinct from every earlier
    one. *)
Definition submit (ex : executor) (work : outcome pydict)
  : nat * executor :=
  (List.length (ex_work ex),
   {| ex_max_workers := ex_max_workers ex;
      ex_work := (ex_work ex ++ [work])%list |}).

(** One step of the dictionary comprehension of [Start]: the task of
    [ip] is submitted and its future becomes a key for [ip].  [world k]
    is what the task of future [k] meets. *)
Definition submit_ip (user_agents : list string)
           (world : nat -> task_world)
           (st : gmap nat string * executor) (ip : string)
  : gmap nat string * executor :=
  let '(futures, ex) := st in
  let k := List.length (ex_work ex) in
  let '(fut, ex) := submit ex (process_ip ip user_agents (world k)) in
  (<[fut := ip]> futures, ex).

(** [{ex.submit(process_ip, ip, user_agents): ip for ip in ips}]: the
    dictionary from futures to addresses. *)
Definition submit_all (ex : executor) (ips user_agents : list string)
           (world : nat -> task_world) : gmap nat string * executor :=
  fold_left (submit_ip user_agents world) ips (∅, ex).

(** [as_completed(futures)] yields every future of the dictionary once,
    in the order in which the tasks complete: [order] is a permutation
    of the keys. *)
Definition completion_order (futures : gmap nat string)
           (order : list nat) : Prop :=
  order ≡ₚ (map_to_list futures).*1.

(** The body of the [try] in the loop: the result of the task, or the
    error record made from the exception it raised. *)
Definition result_or_error (ip : string) (o : outcome pydict) : pydict :=
  match o with
  | Returns res => res
  | Raises e =>
      {[ "ip" := PStr ip; "error" := PStr ("exception: " ++ exc_str e) ]}
  end.

(** The [for fut in as_completed(futures)] loop. *)
Fixpoint collect (futures : gmap nat string) (ex : executor)
         (order : list nat) (results : list pydict)
  : outcome (list pydict) :=
  match order with
  | [] => Returns results
  | fut :: order =>
      match futures !! fut, ex_work ex !! fut with
      | Some ip, Some o =>
          collect futures ex order
                  (results ++ [result_or_error ip o])%list
      | _, _ => Raises (Exc KeyError "future")
      end
  end.

(** [Start] from [results = []] to the end of the [with] block: the
    list [results] that the report is written from. *)
Definition Start_batch (threads : Z) (ips user_agents : list string)
           (world : nat -> task_world) (order : list nat)
  : outcome (list pydict) :=
  ex ← new_executor threads;
  let '(futures, ex) := submit_all ex ips user_agents world in
  collect futures ex order [].

(** The futures of the dictionary are exactly the futures submitted so
    far. *)
Definition pool_inv (st : gmap nat string * executor) : Prop :=
  ∀ k, is_Some (st.1 !! k) ↔ k < List.length (ex_work st.2).

End Extractor.

(** The record of a block that did not parse. *)
Definition parse_failed_record (ip json_block : string) : pydict :=
  {[ "ip" := PStr ip;
     "error" := PStr "json_parse_failed";
     "raw" := PStr (PyStr.take 200 json_block) ]}.

(** What it means for a record to carry no extracted data next to its
    error: no score, no risk, no parsed payload, no key besides ip, error
    and raw, and a raw snippet only with the parse failure. *)
Definition error_only (d : pydict) : Prop :=
  d !! "score" = None ∧ d !! "risk" = None ∧ d !! "_raw_parsed" = None
  ∧ dom d ⊆ ({[ "ip"; "error"; "raw" ]} : gset string)
  ∧ (is_Some (d !! "raw") → d !! "error" = Some (PStr "json_parse_failed")).

(* ===================================================================== *)
(** * Concrete worlds for the examples *)
(* ===================================================================== *)

(** A network that serves one page whatever is asked, and the world of a
    batch in which every task meets it. *)
Definition demo_page : string :=
  q "IP Fraud Risk API {'ip':'1.1.1.1','score':'3','risk':'low'}".

Definition demo_net : network := λ _, Returns demo_page.

Definition demo_world : nat → task_world := λ _, TaskWorld 0 demo_net.

(** A network that is down. *)
Definition dead_net : network :=
  λ _, Raises (Exc RequestException "timed out").

(* ===================================================================== *)
(** * The input file and the report of [cli.py] *)
(* ===================================================================== *)

(** [s.rstrip()], [s.lstrip()] and [s.strip()]: the white space removed is
    the class of [PyStr.is_space]. *)
Fixpoint rstrip (s : string) : string :=
  match s with
  | EmptyString => EmptyString
  | String c s' =>
      match rstrip s' with
      | EmptyString =>
          if PyStr.is_space c then EmptyString else String c EmptyString
      | String _ _ as r => String c r
      end
  end.

Definition lstrip (s : string) : string :=
  PyStr.drop (PyStr.span PyStr.is_space s) s.

Definition strip (s : string) : string := rstrip (lstrip s).

(** [for line in f]: the lines of a file opened in text mode, each with
    its line feed, the last one possibly without.  [content] is the text
    of the file as Python reads it, its line ends already translated to
    line feeds. *)
Fixpoint file_lines (content : string) : list string :=
  match content with
  | EmptyString => []
  | String c rest =>
      if Ascii.eqb c PyStr.newline
      then String c EmptyString :: file_lines rest
      else
        match file_lines rest with
        | [] => [String c EmptyString]
        | line :: lines => String c line :: lines
        end
  end.

(** [read_lines_strip(path)], from the text of the file at [path]:
    [[line.strip() for line in f if line.strip()]]. *)
Definition read_lines_strip (content : string) : list string :=
  strip <$> filter (λ line, strip line ≠ EmptyString) (file_lines content).

Definition out_fields : list string :=
  ["ip"; "score"; "risk"; "error"; "raw_json"].

Section Report.

(** [json.dumps(v, ensure_ascii=False)], which may raise, and [str(v)]. *)
Variable json_dumps : pyval → outcome string.
Variable py_str : pyval → string.

(** The row written for the result [r] (the body of [for r in results]
    up to [writer.writerow(row)]). *)
Definition report_row (r : pydict) : pydict :=
  let row : pydict :=
    {[ "ip" := default PNone (r !! "ip");
       "score" := default (PStr EmptyString) (r !! "score");
       "risk" := default (PStr EmptyString) (r !! "risk");
       "error" := default (PStr EmptyString) (r !! "error");
       "raw_json" := PStr EmptyString ]} in
  let row :=
    match r !! "_raw_parsed" with
    | Some v =>
        match json_dumps v with
        | Returns s => <["raw_json" := PStr s]> row
        | Raises _ => <["raw_json" := PStr (py_str v)]> row
        end
    | None => row
    end in
  let row :=
    match r !! "raw" with
    | Some v =>
        if negb (truthy (default PNone (row !! "raw_json")))
        then <["raw_json" := v]> row
        else row
    | None => row
    end in
  row.

(** The rows of the report, in the order of [results]. *)
Definition report_rows (results : list pydict) : list pydict :=
  report_row <$> results.

End Report.

(* ===================================================================== *)
(** * Notions used to state the properties *)
(* ===================================================================== *)

(** The number of occurrences of the character [c] in [s]. *)
Fixpoint count_char (c : ascii) (s : string) : nat :=
  match s with
  | EmptyString => 0
  | String a s' => (if Ascii.eqb a c then 1 else 0) + count_char c s'
  end.

(** Opening braces minus closing braces. *)
Definition balance (s : string) : Z :=
  (Z.of_nat (count_char "{" s) - Z.of_nat (count_char "}" s))%Z.

(** Every character of [s] satisfies [p]. *)
Fixpoint all_chars (p : ascii → bool) (s : string) : bool :=
  match s with
  | EmptyString => true
  | String a s' => p a && all_chars p s'
  end.

(** The user agents a lookup chooses from. *)
Definition resolved_user_agents (user_agents : option (list string))
  : list string :=
  match user_agents with
  | Some (ua :: uas) => ua :: uas
  | Some [] | None => _DEFAULT_USER_AGENTS
  end.

(** The record the batch stores for the task of future [k]. *)
Definition task_record (json_loads : string → option pyval)
           (ips user_agents : list string) (world : nat → task_world)
           (k : nat) : pydict :=
  match ips !! k with
  | Some ip =>
      result_or_error ip (process_ip json_loads ip user_agents (world k))
  | None => ∅
  end.

(** The fields copied from the payload besides the ip. *)
Definition promoted_keys : list string :=
  ["score"; "risk"; "is_blacklisted_external"; "operator"; "hostname"; "asn"].

(* ===================================================================== *)
(** * Sample inputs *)
(* ===================================================================== *)

(** Sample inputs: a page whose block is nested and needs the clean-up, a
    page whose block does not parse, a page without any block, a batch in
    which the task of rank 1 meets a dead network, a lookup-only network
    and an input file. *)
Definition nested_page : string :=
  q "see IP Fraud Risk API: {'a':{'b':'c'},} and more".

Definition broken_page : string := q "IP Fraud Risk API {'ip': 1.2.3.4}".

Definition scrape_page : string :=
  q "<td>'score' : '42'</td><td>'risk':'low'</td>".

Definition flaky_world : nat → task_world :=
  λ k, if Nat.eqb k 1 then TaskWorld 0 dead_net else demo_world k.

Definition lookup_only_net (ip : string) : network :=
  λ r, if String.eqb (req_url r) ("https://scamalytics.com/ip/" ++ ip)
       then Returns demo_page
       else Raises (Exc RequestException "not found").

Definition sample_file : string :=
  "1.1.1.1" ++ String PyStr.newline
    (String PyStr.newline ("  8.8.8.8 " ++ String PyStr.newline EmptyString)).

(* ===================================================================== *)
(** * Facts about strings and patterns *)
(* ===================================================================== *)

Module PyStrFacts.
Import PyStr.

Lemma drop_0 s : drop 0 s = s.
Proof. by destruct s. Qed.

Lemma drop_length n s : String.length (drop n s) = String.length s - n.
Proof. revert s. induction n as [|n IH]; intros [|c s]; simpl; try done. Qed.

Lemma span_length p s : (span p s ≤ String.length s)%nat.
Proof. induction s as [|c s IH]; simpl; [done|]. destruct (p c); lia. Qed.

Lemma substring_drop n m s : substring n m s = substring 0 m (drop n s).
Proof.
  revert s; induction n as [|n IH]; intros [|c s]; simpl; try done.
  by destruct m.
Qed.

Lemma slice_head text start end_ c r :
  drop start text = String c r → start < end_ →
  slice text start end_ = String c (take (end_ - start - 1) r).
Proof.
  intros Hd Hlt. unfold slice, take. rewrite substring_drop, Hd.
  destruct (end_ - start) as [|k] eqn:Hk; [lia|]. simpl.
  by rewrite Nat.sub_0_r.
Qed.

Lemma take_length s : take (String.length s) s = s.
Proof. unfold take. induction s as [|c s IH]; simpl; [done|]. by rewrite IH. Qed.

Lemma drop_app s t : drop (String.length s) (s ++ t) = t.
Proof. induction s as [|c s IH]; simpl; [apply drop_0 | done]. Qed.

Lemma take_app s t : take (String.length s) (s ++ t) = s.
Proof. unfold take. induction s as [|c s IH]; simpl.
  - by destruct t.
  - by rewrite IH.
Qed.

(** A single-character [find] lands on that character. *)
Lemma find_char_drop c text n start :
  find (String c EmptyString) text n = Some start →
  ∃ r, drop start text = String c r.
Proof.
  unfold find. revert n start.
  induction text as [|b text IH]; intros n start; simpl.
  - by destruct n.
  - destruct n as [|n].
    + destruct (ascii_dec c b) as [->|Hne]; simpl.
      * destruct text; intros [= <-]; eauto.
      * destruct (index 0 (String c EmptyString) text) as [k|] eqn:Hk;
          [|done].
        intros [= <-]. simpl. by apply (IH 0).
    + destruct (index n (String c EmptyString) text) as [k|] eqn:Hk;
        [|done].
      intros [= <-]. simpl. by apply (IH n).
Qed.

Lemma prefix_char c s :
  String.prefix (String c EmptyString) s = true → ∃ r, s = String c r.
Proof.
  intros H%prefix_correct. destruct s as [|a s]; [done|].
  simpl in H. injection H as ->. eauto.
Qed.

Lemma prefix_app s t : String.prefix s (s ++ t) = true.
Proof.
  apply prefix_correct. fold (take (String.length s) (s ++ t)).
  apply take_app.
Qed.

Lemma prefix_length p s :
  String.prefix p s = true → (String.length p ≤ String.length s)%nat.
Proof.
  revert s. induction p as [|a p IH]; intros [|b s]; simpl; try done; try lia.
  destruct (ascii_dec a b); [|done]. intros H%IH. lia.
Qed.

Lemma find_0_prefix s t : String.prefix s t = true → find s t 0 = Some 0.
Proof.
  unfold find. destruct t as [|b t].
  - destruct s; [done|]. by intros H%prefix_correct.
  - cbn [String.index]. by intros ->.
Qed.

(** The first occurrence of [c] in a text whose first characters differ
    from [c]. *)
Lemma find_char_app pre c r :
  span (fun a => negb (Ascii.eqb a c)) pre = String.length pre →
  find (String c EmptyString) (pre ++ String c r) 0
  = Some (String.length pre).
Proof.
  unfold find. induction pre as [|a pre IH].
  - intros _. change (EmptyString ++ String c r) with (String c r).
    apply (find_0_prefix (String c EmptyString) (String c r)).
    apply prefix_correct. simpl. by destruct r.
  - change (String a pre ++ String c r) with (String a (pre ++ String c r)).
    cbn [span String.length String.index].
    destruct (Ascii.eqb a c) eqn:Hac; [done|]. simpl negb. cbv iota.
    intros [= Hspan].
    destruct (String.prefix (String c EmptyString)
                            (String a (pre ++ String c r))) eqn:Hp.
    + apply prefix_char in Hp as [r' [= ->]].
      by rewrite Ascii.eqb_refl in Hac.
    + by rewrite (IH Hspan).
Qed.

(** A pattern that does not match at the head leaves the head in place. *)
Lemma sub_all_head m repl c s :
  m (String c s) = None →
  sub_all m repl (String c s) = String c (sub_go m repl 0 s).
Proof. unfold sub_all. simpl. by intros ->. Qed.

Lemma sub_go_nomatch m repl s :
  (∀ t, m t = None) → sub_go m repl 0 s = s.
Proof.
  intros Hm. induction s as [|c s IH]; simpl; [done|].
  by rewrite Hm, IH.
Qed.

End PyStrFacts.

(* ===================================================================== *)
(** * Facts about the balanced-block scanner *)
(* ===================================================================== *)

Lemma scan_gt s depth i end_ : scan s depth i = Some end_ → i < end_.
Proof.
  revert depth i. induction s as [|ch s IH]; intros depth i; simpl; [done|].
  destruct (Ascii.eqb ch "{").
  - intros H%IH. lia.
  - destruct (Ascii.eqb ch "}"); [|intros H%IH; lia].
    destruct (depth - 1 =? 0)%Z; [intros [= <-]; lia | intros H%IH; lia].
Qed.

(** The loop counts positions from wherever it starts. *)
Lemma scan_shift s depth i j :
  scan s depth (i + j) = (λ e, e + j) <$> scan s depth i.
Proof.
  revert depth i. induction s as [|ch s IH]; intros depth i; simpl; [done|].
  replace (i + j + 1) with (i + 1 + j) by lia.
  destruct (Ascii.eqb ch "{"); [apply IH|].
  destruct (Ascii.eqb ch "}"); [|apply IH].
  destruct (depth - 1 =? 0)%Z; [done | apply IH].
Qed.


Lemma scan_same_braces s t depth i :
  same_braces s t → scan s depth i = scan t depth i.
Proof.
  revert t depth i. induction s as [|a s IH]; intros [|b t] depth i; simpl;
    try done.
  intros [Hab Hst]. unfold is_brace in Hab.
  destruct (Ascii.eqb a "{") eqn:Ha1; simpl in Hab.
  { subst b. rewrite Ha1. by apply IH. }
  destruct (Ascii.eqb a "}") eqn:Ha2; simpl in Hab.
  { subst b. rewrite Ha1, Ha2.
    destruct (depth - 1 =? 0)%Z; [done | by apply IH]. }
  apply orb_false_iff in Hab as [-> ->]. by apply IH.
Qed.

Lemma raw_block_head text b :
  raw_block text = Some b → ∃ r, b = String "{" r.
Proof.
  unfold raw_block, first_brace.
  destruct (PyStr.find "{" text (marker_pos text)) as [start|] eqn:Hf; [|done].
  destruct (scan (PyStr.drop start text) 0 start) as [end_|] eqn:Hs; [|done].
  intros [= <-].
  apply PyStrFacts.find_char_drop in Hf as [r Hr].
  apply scan_gt in Hs.
  rewrite (PyStrFacts.slice_head _ _ _ _ _ Hr Hs). eauto.
Qed.

Lemma sanitize_head r : ∃ r', sanitize (String "{" r) = String "{" r'.
Proof.
  unfold sanitize, PyStr.replace.
  repeat (rewrite PyStrFacts.sub_all_head by done). eauto.
Qed.

(** An extracted block is never empty: it begins with its opening brace. *)
Lemma extract_head text b :
  _extract_json_block_from_text text = Some b → ∃ r, b = String "{" r.
Proof.
  unfold _extract_json_block_from_text.
  destruct (raw_block text) as [c|] eqn:Hc; [|done].
  intros [= <-]. apply raw_block_head in Hc as [r ->]. apply sanitize_head.
Qed.

Lemma takes_fallback_None text :
  takes_fallback text = true ↔ _extract_json_block_from_text text = None.
Proof.
  unfold takes_fallback.
  destruct (_extract_json_block_from_text text) as [b|] eqn:Hb; simpl.
  - apply extract_head in Hb as [r ->]. simpl. split; done.
  - done.
Qed.

(* ===================================================================== *)
(** * Facts about the reference decoder *)
(* ===================================================================== *)

Module JsonFacts.
Import PyStr Json.

Lemma members_dict fuel s acc v r :
  members fuel s acc = Some (v, r) → ∃ d, v = PDict d.
Proof.
  revert s acc. induction fuel as [|fuel IH]; intros s acc; simpl; [done|].
  repeat case_match; try done.
  - intros [= <- _]. eauto.
  - apply IH.
Qed.

Lemma value_brace fuel s v r :
  value fuel (String "{" s) = Some (v, r) → ∃ d, v = PDict d.
Proof.
  destruct fuel as [|fuel]; [done|].
  cbn [value Ascii.eqb Bool.eqb dquote].
  destruct (String.prefix "}" (skip_ws s)).
  - intros [= <- _]. eauto.
  - apply members_dict.
Qed.

(** A text whose first character is an opening brace decodes to a
    dictionary or not at all. *)
Lemma loads_object s v :
  loads (String "{" s) = Some v → ∃ d, v = PDict d.
Proof.
  unfold loads.
  change (skip_ws (String "{" s)) with (String "{" s).
  destruct (value _ _) as [[w r]|] eqn:Hv; [|done].
  destruct (_ =? 0)%nat; [|done]. intros [= <-].
  by apply value_brace in Hv.
Qed.

(** ** The fuel of the decoder is enough *)

Lemma skip_ws_length s : (String.length (skip_ws s) ≤ String.length s)%nat.
Proof. unfold skip_ws. rewrite PyStrFacts.drop_length. lia. Qed.

Lemma prefix_drop_length c s :
  String.prefix (String c EmptyString) s = true →
  S (String.length (drop 1 s)) = String.length s.
Proof. by intros [r ->]%PyStrFacts.prefix_char. Qed.

Lemma cons_fst_Some c o k r :
  cons_fst c o = Some (k, r) → ∃ k', o = Some (k', r) ∧ k = String c k'.
Proof. destruct o as [[k' r']|]; [|done]. intros [= <- <-]. eauto. Qed.

(** A string literal takes at least its closing quote. *)
Lemma scanstring_length s k r :
  scanstring s = Some (k, r) → (String.length r < String.length s)%nat.
Proof.
  remember (String.length s) as n eqn:Hn. revert s k r Hn.
  induction n as [n IH] using lt_wf_ind. intros s k r ->.
  destruct s as [|c s]; [done|]. cbn [scanstring String.length].
  destruct (Ascii.eqb c dquote); [intros [= _ <-]; lia|].
  destruct (Ascii.eqb c "\").
  - destruct s as [|e s]; [done|]. destruct (unescape e).
    + intros (k' & Hsc & _)%cons_fst_Some.
      eapply IH in Hsc; [| |done]; simpl in *; lia.
    + destruct (Ascii.eqb e "u"); [|done].
      destruct s as [|h1 [|h2 [|h3 [|h4 s]]]]; try done.
      repeat case_match; try done.
      intros (k' & Hsc & _)%cons_fst_Some.
      eapply IH in Hsc; [| |done]; simpl in *; lia.
  - destruct (_ <? 32)%nat; [done|].
    intros (k' & Hsc & _)%cons_fst_Some.
    eapply IH in Hsc; [| |done]; simpl in *; lia.
Qed.

Lemma number_length neg s v r :
  number neg s = Some (v, r) → (String.length r < String.length s)%nat.
Proof.
  unfold number.
  set (ni := match s with String "0"%char _ => 1 | _ => span is_digit s end).
  assert (ni ≤ String.length s)%nat as Hni.
  { subst ni. pose proof (PyStrFacts.span_length is_digit s).
    destruct s as [|c s]; [done|].
    repeat case_match; simplify_eq; first [exact H | simpl; lia]. }
  destruct ni as [|ni]; [done|].
  pose proof (PyStrFacts.drop_length (S ni) s) as Hd.
  set (r0 := drop (S ni) s) in *.
  set (fr := match r0 with
             | String "."%char r1 =>
                 match span is_digit r1 with
                 | O => (None, r0)
                 | S _ as nf => (Some (take nf r1), drop nf r1)
                 end
             | _ => (None, r0)
             end).
  assert (String.length fr.2 ≤ String.length r0)%nat as Hfr.
  { subst fr. destruct r0 as [|c r1]; [done|].
    repeat case_match; simplify_eq; cbn [snd];
      rewrite ?PyStrFacts.drop_length; simpl; lia. }
  destruct fr as [frac r1]. simpl in Hfr.
  set (ex := match r1 with
             | String c r2 =>
                 if Ascii.eqb c "e" || Ascii.eqb c "E" then
                   let '(eneg, r3) :=
                     match r2 with
                     | String "-"%char r3 => (true, r3)
                     | String "+"%char r3 => (false, r3)
                     | _ => (false, r2)
                     end in
                   match span is_digit r3 with
                   | O => (None, r1)
                   | S _ as ne =>
                       let v := Z.of_N (digits_val 0 (take ne r3)) in
                       (Some (if eneg then - v else v)%Z, drop ne r3)
                   end
                 else (None, r1)
             | EmptyString => (None, r1)
             end).
  assert (String.length ex.2 ≤ String.length r1)%nat as Hex.
  { subst ex. destruct r1 as [|c r2]; [done|].
    destruct (Ascii.eqb c "e" || Ascii.eqb c "E"); [|done].
    repeat case_match; simplify_eq; cbn [snd];
      rewrite ?PyStrFacts.drop_length; simpl; lia. }
  destruct ex as [exp r2]. simpl in Hex.
  destruct frac, exp; intros [= _ <-]; lia.
Qed.

Lemma scalar_length s v r :
  scalar s = Some (v, r) → (String.length r < String.length s)%nat.
Proof.
  assert (∀ p n w, String.prefix p s = true → String.length p = S n →
                   Some (w, drop (S n) s) = Some (v, r) →
                   (String.length r < String.length s)%nat) as Hlit.
  { intros p n w Hp%PyStrFacts.prefix_length Hn.
    pose proof (PyStrFacts.drop_length (S n) s) as Hl.
    set (d := drop (S n) s) in *. clearbody d. intros [= _ <-]. lia. }
  unfold scalar.
  destruct (String.prefix "null" s) eqn:H1; [by eapply Hlit|].
  destruct (String.prefix "true" s) eqn:H2; [by eapply Hlit|].
  destruct (String.prefix "false" s) eqn:H3; [by eapply Hlit|].
  destruct (match s with
            | String "-"%char r0 => number true r0
            | _ => number false s
            end) as [[w r0]|] eqn:Hnum.
  { intros [= _ <-]. destruct s as [|c s]; [done|].
    repeat case_match; simplify_eq;
      apply number_length in Hnum; simpl in *; lia. }
  destruct (String.prefix "NaN" s) eqn:H4; [by eapply Hlit|].
  destruct (String.prefix "Infinity" s) eqn:H5; [by eapply Hlit|].
  destruct (String.prefix "-Infinity" s) eqn:H6; [by eapply Hlit|done].
Qed.

(** From [Some (v, x) = Some (w, r)], replace [r] by [x] as it stands. *)
Ltac take_rest :=
  let H := fresh in
  intros H;
  match type of H with
  | Some (_, ?x) = Some (_, ?r) => assert (r = x) as -> by congruence
  end;
  clear H.

(** Whatever is read takes at least one character. *)
Lemma value_length fuel :
  (∀ s v r, value fuel s = Some (v, r) →
            (String.length r < String.length s)%nat)
  ∧ (∀ s acc v r, members fuel s acc = Some (v, r) →
                  (String.length r < String.length s)%nat)
  ∧ (∀ s acc v r, elements fuel s acc = Some (v, r) →
                  (String.length r < String.length s)%nat).
Proof.
  induction fuel as [|fuel (IHv & IHm & IHe)]; [by split_and!|].
  split_and!.
  - intros [|c s] v r; [done|]. cbn [value String.length].
    pose proof (skip_ws_length s) as Hws.
    destruct (Ascii.eqb c dquote).
    { destruct (scanstring s) as [[k r']|] eqn:Hs; [|done].
      take_rest. apply scanstring_length in Hs. lia. }
    destruct (Ascii.eqb c "{").
    { destruct (String.prefix "}" (skip_ws s)) eqn:Hp.
      - take_rest. apply prefix_drop_length in Hp. lia.
      - intros Hrec%IHm. lia. }
    destruct (Ascii.eqb c "[").
    { destruct (String.prefix "]" (skip_ws s)) eqn:Hp.
      - take_rest. apply prefix_drop_length in Hp. lia.
      - intros Hrec%IHe. lia. }
    intros Hrec%scalar_length. by simpl in Hrec.
  - intros s acc v r. cbn [members].
    destruct (String.prefix (String dquote EmptyString) s) eqn:Hq; [|done].
    apply prefix_drop_length in Hq.
    destruct (scanstring (drop 1 s)) as [[k r1]|] eqn:Hs; [|done].
    apply scanstring_length in Hs.
    destruct (String.prefix ":" (skip_ws r1)) eqn:Hc; [|done].
    apply prefix_drop_length in Hc.
    destruct (value fuel _) as [[w r2]|] eqn:Hv; [|done].
    apply IHv in Hv.
    pose proof (skip_ws_length r1). pose proof (skip_ws_length r2).
    pose proof (skip_ws_length (drop 1 (skip_ws r1))).
    cbv zeta.
    destruct (String.prefix "}" (skip_ws r2)) eqn:Hb.
    { take_rest. apply prefix_drop_length in Hb. lia. }
    destruct (String.prefix "," (skip_ws r2)) eqn:Hk; [|done].
    apply prefix_drop_length in Hk.
    pose proof (skip_ws_length (drop 1 (skip_ws r2))).
    intros Hrec%IHm. lia.
  - intros s acc v r. cbn [elements].
    destruct (value fuel s) as [[w r1]|] eqn:Hv; [|done].
    apply IHv in Hv. pose proof (skip_ws_length r1). cbv zeta.
    destruct (String.prefix "]" (skip_ws r1)) eqn:Hb.
    { take_rest. apply prefix_drop_length in Hb. lia. }
    destruct (String.prefix "," (skip_ws r1)) eqn:Hk; [|done].
    apply prefix_drop_length in Hk.
    pose proof (skip_ws_length (drop 1 (skip_ws r1))).
    intros Hrec%IHe. lia.
Qed.

(** With twice the length of the text as fuel (one unit more for a list
    of elements), more fuel changes nothing. *)
Lemma fuel_enough fuel :
  ∀ fuel',
    (∀ s, (2 * String.length s < fuel)%nat →
          (2 * String.length s < fuel')%nat →
          value fuel s = value fuel' s)
    ∧ (∀ s acc, (2 * String.length s < fuel)%nat →
                (2 * String.length s < fuel')%nat →
                members fuel s acc = members fuel' s acc)
    ∧ (∀ s acc, (2 * String.length s + 1 < fuel)%nat →
                (2 * String.length s + 1 < fuel')%nat →
                elements fuel s acc = elements fuel' s acc).
Proof.
  induction fuel as [|fuel IH]; intros fuel'; [split_and!; intros; lia|].
  destruct fuel' as [|fuel']; [split_and!; intros; lia|].
  destruct (IH fuel') as (IHv & IHm & IHe). clear IH.
  destruct (value_length fuel) as (Lv & _ & _).
  split_and!.
  - intros [|c s] Hf Hf'; [done|]. cbn [value]. simpl in Hf, Hf'.
    pose proof (skip_ws_length s) as Hws.
    rewrite (IHm (skip_ws s) ∅) by lia.
    rewrite (IHe (skip_ws s) []) by lia. done.
  - intros s acc Hf Hf'. cbn [members].
    destruct (String.prefix (String dquote EmptyString) s) eqn:Hq; [|done].
    apply prefix_drop_length in Hq.
    destruct (scanstring (drop 1 s)) as [[k r1]|] eqn:Hs; [|done].
    apply scanstring_length in Hs.
    destruct (String.prefix ":" (skip_ws r1)) eqn:Hc; [|done].
    apply prefix_drop_length in Hc.
    pose proof (skip_ws_length r1) as Hw1.
    pose proof (skip_ws_length (drop 1 (skip_ws r1))) as Hw2.
    rewrite <- (IHv (skip_ws (drop 1 (skip_ws r1)))) by lia.
    destruct (value fuel _) as [[w r2]|] eqn:Hv; [|done].
    apply Lv in Hv. cbv zeta.
    pose proof (skip_ws_length r2) as Hw3.
    destruct (String.prefix "}" (skip_ws r2)); [done|].
    destruct (String.prefix "," (skip_ws r2)) eqn:Hk; [|done].
    apply prefix_drop_length in Hk.
    pose proof (skip_ws_length (drop 1 (skip_ws r2))) as Hw4.
    apply IHm; lia.
  - intros s acc Hf Hf'. cbn [elements].
    rewrite <- (IHv s) by lia.
    destruct (value fuel s) as [[w r1]|] eqn:Hv; [|done].
    apply Lv in Hv. cbv zeta.
    pose proof (skip_ws_length r1) as Hw1.
    destruct (String.prefix "]" (skip_ws r1)); [done|].
    destruct (String.prefix "," (skip_ws r1)) eqn:Hk; [|done].
    apply prefix_drop_length in Hk.
    pose proof (skip_ws_length (drop 1 (skip_ws r1))) as Hw2.
    apply IHe; lia.
Qed.

(** The result of [loads] owes nothing to the fuel it is given: any
    larger amount reads the same value, or fails as well. *)
Lemma loads_fuel s fuel :
  (2 * String.length s < fuel)%nat →
  value fuel (skip_ws s) = value (S (2 * String.length s)) (skip_ws s).
Proof.
  intros Hf. pose proof (skip_ws_length s).
  apply (fuel_enough fuel (S (2 * String.length s))); lia.
Qed.

End JsonFacts.

(* ===================================================================== *)
(** * Facts about result dictionaries *)
(* ===================================================================== *)

Lemma copy_if_present_lookup parsed out k j :
  copy_if_present parsed out k !! j
  = if decide (k = j) then
      match parsed !! k with Some v => Some v | None => out !! j end
    else out !! j.
Proof.
  unfold copy_if_present.
  destruct (parsed !! k) eqn:Hk; case_decide; simplify_map_eq; done.
Qed.

Lemma promote_fields_ip ip parsed :
  promote_fields ip parsed !! "ip" = Some (default (PStr ip) (parsed !! "ip")).
Proof.
  unfold promote_fields. simpl.
  rewrite lookup_insert_ne by done.
  rewrite !copy_if_present_lookup. by simplify_map_eq.
Qed.

Lemma promote_fields_score ip parsed :
  promote_fields ip parsed !! "score" = parsed !! "score".
Proof.
  unfold promote_fields. simpl.
  rewrite lookup_insert_ne by done.
  rewrite !copy_if_present_lookup. simplify_map_eq.
  by destruct (parsed !! "score").
Qed.

Lemma promote_fields_risk ip parsed :
  promote_fields ip parsed !! "risk" = parsed !! "risk".
Proof.
  unfold promote_fields. simpl.
  rewrite lookup_insert_ne by done.
  rewrite !copy_if_present_lookup. simplify_map_eq.
  by destruct (parsed !! "risk").
Qed.

Lemma promote_fields_raw_parsed ip parsed :
  promote_fields ip parsed !! "_raw_parsed" = Some (PDict parsed).
Proof. unfold promote_fields. by rewrite lookup_insert_eq. Qed.

Lemma promote_fields_error ip parsed :
  promote_fields ip parsed !! "error" = None.
Proof.
  unfold promote_fields. simpl.
  rewrite lookup_insert_ne by done.
  rewrite !copy_if_present_lookup. by simplify_map_eq.
Qed.

(** The result of the degraded path, field by field. *)
Lemma fallback_scrape_found ip text :
  let m_ip := PyStr.search (Re.field "ip") text in
  let m_score := PyStr.search (Re.field "score") text in
  let m_risk := PyStr.search (Re.field "risk") text in
  matched m_ip || matched m_score || matched m_risk = true →
  ∀ k, fallback_scrape ip text !! k
       = if decide (k = "ip") then Some (PStr (default ip m_ip))
         else if decide (k = "score") then PStr <$> m_score
         else if decide (k = "risk") then PStr <$> m_risk
         else None.
Proof.
  intros m_ip m_score m_risk Hm k. unfold fallback_scrape.
  fold m_ip m_score m_risk. rewrite Hm.
  destruct m_ip, m_score, m_risk; repeat case_decide; by simplify_map_eq.
Qed.

Lemma fallback_scrape_not_found ip text :
  PyStr.search (Re.field "ip") text = None →
  PyStr.search (Re.field "score") text = None →
  PyStr.search (Re.field "risk") text = None →
  fallback_scrape ip text
  = {[ "ip" := PStr ip; "error" := PStr "no_json_block_found" ]}.
Proof. unfold fallback_scrape. by intros -> -> ->. Qed.

(** The degraded path gives an error only when no search matches. *)
Lemma fallback_scrape_error ip text :
  is_Some (fallback_scrape ip text !! "error") →
  fallback_scrape ip text
  = {[ "ip" := PStr ip; "error" := PStr "no_json_block_found" ]}.
Proof.
  destruct (matched (PyStr.search (Re.field "ip") text)
            || matched (PyStr.search (Re.field "score") text)
            || matched (PyStr.search (Re.field "risk") text)) eqn:Hm.
  - rewrite (fallback_scrape_found ip text Hm "error").
    repeat case_decide; solve [done | by intros [? ?]].
  - intros _. apply orb_false_iff in Hm as [[H1 H2]%orb_false_iff H3].
    apply fallback_scrape_not_found.
    + by destruct (PyStr.search (Re.field "ip") text).
    + by destruct (PyStr.search (Re.field "score") text).
    + by destruct (PyStr.search (Re.field "risk") text).
Qed.

(** A field search only ever yields a non-empty group. *)
Lemma field_nonempty key s g : Re.field key s = Some g → g ≠ EmptyString.
Proof.
  unfold Re.field. repeat case_match; try done.
  intros [= <-]. unfold PyStr.take.
  match goal with H : PyStr.span _ ?r = S _ |- _ =>
    destruct r; simpl in *; [done|] end.
  done.
Qed.

Lemma search_field_nonempty key s g :
  PyStr.search (Re.field key) s = Some g → g ≠ EmptyString.
Proof.
  induction s as [|c s IH]; simpl; [done|].
  destruct (Re.field key (String c s)) eqn:Hf; [|done].
  intros [= <-]. by apply field_nonempty in Hf.
Qed.

(* ===================================================================== *)
(** * Facts about [CheckIP] *)
(* ===================================================================== *)

Lemma random_choice_returns rnd x seq :
  ∃ ua, random_choice rnd (x :: seq) = Returns ua ∧ ua ∈ x :: seq.
Proof.
  unfold random_choice.
  destruct ((x :: seq) !! (rnd mod List.length (x :: seq))) as [ua|] eqn:Hl.
  - exists ua. split; [done|]. by eapply list_elem_of_lookup_2.
  - apply lookup_ge_None in Hl.
    pose proof (Nat.mod_upper_bound rnd (List.length (x :: seq))) as Hlt.
    simpl in *. lia.
Qed.

(** The choice of a user agent never raises. *)
Lemma _choose_user_agent_returns user_agents rnd :
  ∃ ua, _choose_user_agent user_agents rnd = Returns ua.
Proof.
  unfold _choose_user_agent.
  destruct user_agents as [[|x seq]|].
  - destruct (random_choice_returns rnd
               (hd EmptyString _DEFAULT_USER_AGENTS)
               (tl _DEFAULT_USER_AGENTS)) as (ua & H & _). eauto.
  - destruct (random_choice_returns rnd x seq) as (ua & H & _). eauto.
  - destruct (random_choice_returns rnd
               (hd EmptyString _DEFAULT_USER_AGENTS)
               (tl _DEFAULT_USER_AGENTS)) as (ua & H & _). eauto.
Qed.


Section ExtractorFacts.

Variable json_loads : string → option pyval.

Lemma CheckIP_extract_fallback ip text :
  takes_fallback text = true →
  CheckIP_extract json_loads ip text = Returns (fallback_scrape ip text).
Proof. unfold CheckIP_extract. by intros ->. Qed.

Lemma CheckIP_extract_block ip text block :
  _extract_json_block_from_text text = Some block →
  CheckIP_extract json_loads ip text
  = if negb (truthy (_safe_json_loads json_loads block))
    then Returns (parse_failed_record ip block)
    else match _safe_json_loads json_loads block with
         | PDict parsed => Returns (promote_fields ip parsed)
         | v => Raises (Exc AttributeError
                            ("'" ++ type_name v
                                 ++ "' object has no attribute 'get'"))
         end.
Proof.
  intros Hb. unfold CheckIP_extract.
  destruct (takes_fallback text) eqn:Hf.
  - apply takes_fallback_None in Hf. congruence.
  - rewrite Hb. simpl. by destruct (_safe_json_loads json_loads block).
Qed.

Lemma CheckIP_extract_parse_failed ip text block :
  _extract_json_block_from_text text = Some block →
  truthy (_safe_json_loads json_loads block) = false →
  CheckIP_extract json_loads ip text
  = Returns (parse_failed_record ip block).
Proof. intros Hb Ht. rewrite (CheckIP_extract_block _ _ _ Hb). by rewrite Ht. Qed.

Lemma CheckIP_extract_parsed ip text block parsed :
  _extract_json_block_from_text text = Some block →
  _safe_json_loads json_loads block = PDict parsed →
  parsed ≠ ∅ →
  CheckIP_extract json_loads ip text = Returns (promote_fields ip parsed).
Proof.
  intros Hb Hp Hne. rewrite (CheckIP_extract_block _ _ _ Hb), Hp. simpl.
  destruct (size parsed) eqn:Hs; [|done].
  by apply map_size_empty_iff in Hs.
Qed.

(** [_safe_json_loads] yields Python's [None] exactly when both attempts
    raise or one of them decodes the JSON literal null. *)
Lemma _safe_json_loads_cases s :
  (∃ v, json_loads s = Some v ∧ _safe_json_loads json_loads s = v)
  ∨ (json_loads s = None
     ∧ ∃ v, json_loads (PyStr.replace (String PyStr.squote EmptyString)
                          (String PyStr.dquote EmptyString) s) = Some v
            ∧ _safe_json_loads json_loads s = v)
  ∨ (json_loads s = None
     ∧ json_loads (PyStr.replace (String PyStr.squote EmptyString)
                     (String PyStr.dquote EmptyString) s) = None
     ∧ _safe_json_loads json_loads s = PNone).
Proof.
  unfold _safe_json_loads. destruct (json_loads s) as [v|]; [eauto|].
  destruct (json_loads _) as [v|]; [right; left | right; right]; eauto.
Qed.

(** The one assumption made on [json.loads]: a text that begins with an
    opening brace decodes to a dictionary or not at all. *)
Hypothesis json_loads_object :
  ∀ s v, json_loads (String "{" s) = Some v → ∃ d, v = PDict d.

Lemma _safe_json_loads_block r :
  _safe_json_loads json_loads (String "{" r) = PNone
  ∨ ∃ d, _safe_json_loads json_loads (String "{" r) = PDict d.
Proof.
  destruct (_safe_json_loads_cases (String "{" r))
    as [(v & Hv & ->) | [(_ & v & Hv & ->) | (_ & _ & ->)]].
  - apply json_loads_object in Hv as [d ->]. eauto.
  - unfold PyStr.replace in Hv.
    rewrite PyStrFacts.sub_all_head in Hv by done.
    apply json_loads_object in Hv as [d ->]. eauto.
  - by left.
Qed.

(** The three ways the extraction path ends. *)
Lemma CheckIP_extract_cases ip text :
  (_extract_json_block_from_text text = None
   ∧ CheckIP_extract json_loads ip text = Returns (fallback_scrape ip text))
  ∨ (∃ block,
       _extract_json_block_from_text text = Some block
       ∧ truthy (_safe_json_loads json_loads block) = false
       ∧ CheckIP_extract json_loads ip text
         = Returns (parse_failed_record ip block))
  ∨ (∃ block parsed,
       _extract_json_block_from_text text = Some block
       ∧ _safe_json_loads json_loads block = PDict parsed
       ∧ parsed ≠ ∅
       ∧ CheckIP_extract json_loads ip text
         = Returns (promote_fields ip parsed)).
Proof.
  destruct (_extract_json_block_from_text text) as [block|] eqn:Hb.
  - right. destruct (extract_head _ _ Hb) as [r ->].
    destruct (truthy (_safe_json_loads json_loads (String "{" r))) eqn:Ht.
    + right. destruct (_safe_json_loads_block r) as [Hn | [d Hd]].
      * by rewrite Hn in Ht.
      * exists (String "{"%char r), d. split_and!; [done..| |].
        -- intros ->. by rewrite Hd in Ht.
        -- rewrite (CheckIP_extract_block _ _ _ Hb), Ht, Hd. done.
    + left. exists (String "{"%char r). split_and!; [done..|].
      by apply CheckIP_extract_parse_failed.
  - left. split; [done|]. apply CheckIP_extract_fallback.
    by apply takes_fallback_None.
Qed.

(** When the record says json_parse_failed: a block was extracted and
    either both attempts to decode it raised (or one decoded null), or one
    of them decoded it to the empty dictionary. *)
Lemma json_parse_failed_iff ip text :
  (∃ d, CheckIP_extract json_loads ip text = Returns d
        ∧ d !! "error" = Some (PStr "json_parse_failed"))
  ↔ ∃ block, _extract_json_block_from_text text = Some block
             ∧ (_safe_json_loads json_loads block = PNone
                ∨ _safe_json_loads json_loads block = PDict ∅).
Proof.
  split.
  - intros (d & Hd & He).
    destruct (CheckIP_extract_cases ip text)
      as [(_ & Hr) | [(block & Hb & Ht & Hr) | (block & p & _ & _ & _ & Hr)]];
      rewrite Hr in Hd; injection Hd as <-.
    + assert (is_Some (fallback_scrape ip text !! "error")) as Hs by eauto.
      rewrite (fallback_scrape_error _ _ Hs) in He. by simplify_map_eq.
    + exists block. split; [done|].
      destruct (extract_head _ _ Hb) as [r ->].
      destruct (_safe_json_loads_block r) as [Hn | [p Hp]]; [by left|].
      right. rewrite Hp in Ht |- *. simpl in Ht.
      destruct (size p) eqn:Hs; [|done].
      by apply map_size_empty_iff in Hs as ->.
    + by rewrite promote_fields_error in He.
  - intros (block & Hb & Hp). exists (parse_failed_record ip block). split.
    + apply CheckIP_extract_parse_failed; [done|]. by destruct Hp as [-> | ->].
    + by unfold parse_failed_record; simplify_map_eq.
Qed.

End ExtractorFacts.

(* ===================================================================== *)
(** * Facts about the batch *)
(* ===================================================================== *)

Section DispatcherFacts.

Variable json_loads : string → option pyval.


Lemma submit_ip_inv user_agents world st ip :
  pool_inv st →
  pool_inv (submit_ip json_loads user_agents world st ip)
  ∧ List.length (ex_work (submit_ip json_loads user_agents world st ip).2)
    = S (List.length (ex_work st.2)).
Proof.
  destruct st as [futures ex]. unfold pool_inv, submit_ip. simpl.
  intros Hinv. split.
  - intros k. rewrite length_app. simpl.
    destruct (decide (k = List.length (ex_work ex))) as [->|Hne].
    + rewrite lookup_insert_eq. split; [lia | eauto].
    + rewrite lookup_insert_ne by done. rewrite Hinv. lia.
  - rewrite length_app. simpl. lia.
Qed.

Lemma submit_all_inv user_agents world ips st :
  pool_inv st →
  pool_inv (fold_left (submit_ip json_loads user_agents world) ips st)
  ∧ List.length
      (ex_work (fold_left (submit_ip json_loads user_agents world) ips st).2)
    = List.length (ex_work st.2) + List.length ips.
Proof.
  revert st. induction ips as [|ip ips IH]; intros st Hinv; simpl.
  - split; [done | lia].
  - destruct (submit_ip_inv user_agents world st ip Hinv) as [Hinv' Hlen].
    destruct (IH _ Hinv') as [Hinv'' Hlen'']. split; [done|].
    rewrite Hlen'', Hlen. lia.
Qed.

(** A dictionary whose keys are the numbers below [n] has [n] entries:
    two futures never share a key, whatever their addresses. *)
Lemma size_initial_segment (futures : gmap nat string) n :
  (∀ k, is_Some (futures !! k) ↔ k < n) → size futures = n.
Proof.
  intros Hk. rewrite <- size_dom.
  assert (dom futures = set_seq 0 n) as ->.
  { apply set_eq. intros k. rewrite elem_of_dom, elem_of_set_seq, Hk. lia. }
  apply size_set_seq.
Qed.

Lemma collect_length futures ex order results :
  pool_inv (futures, ex) →
  (∀ fut, fut ∈ order → is_Some (futures !! fut)) →
  ∃ results',
    collect futures ex order results = Returns results'
    ∧ List.length results' = List.length results + List.length order.
Proof.
  intros Hinv. revert results.
  induction order as [|fut order IH]; intros results Hin; simpl.
  - exists results. split; [done | lia].
  - destruct (Hin fut) as [ip Hip]; [by left|]. rewrite Hip.
    assert (is_Some (ex_work ex !! fut)) as [o Ho].
    { apply lookup_lt_is_Some. apply (Hinv fut). simpl. eauto. }
    rewrite Ho.
    destruct (IH (results ++ [result_or_error ip o])%list)
      as (results' & Hc & Hl).
    { intros f Hf. apply Hin. by right. }
    exists results'. split; [done|].
    rewrite Hl, length_app. simpl. lia.
Qed.

Lemma completion_order_keys (futures : gmap nat string) order :
  completion_order futures order →
  List.length order = size futures
  ∧ ∀ fut, fut ∈ order → is_Some (futures !! fut).
Proof.
  unfold completion_order. intros Hp. split.
  - rewrite Hp, length_fmap. apply length_map_to_list.
  - intros fut Hf. rewrite Hp in Hf.
    apply list_elem_of_fmap in Hf as ([k ip] & -> & Hk).
    apply elem_of_map_to_list in Hk. simpl. eauto.
Qed.

End DispatcherFacts.

(* ===================================================================== *)
(** * The shape of error records *)
(* ===================================================================== *)


Lemma error_only_plain ip msg :
  error_only {[ "ip" := PStr ip; "error" := PStr msg ]}.
Proof.
  unfold error_only. split_and!; try by simplify_map_eq.
  rewrite !dom_insert_L, dom_singleton_L. set_unfold. intros k [->| ->]; eauto.
Qed.

Lemma error_only_parse_failed ip block :
  error_only (parse_failed_record ip block).
Proof.
  unfold error_only, parse_failed_record. split_and!; by simplify_map_eq.
Qed.

(** Every record the extraction path returns with an error key is an
    error-only record; this needs nothing of [json.loads]. *)
Lemma CheckIP_extract_error_only json_loads ip text d :
  result_or_error ip (CheckIP_extract json_loads ip text) = d →
  is_Some (d !! "error") → error_only d.
Proof.
  destruct (_extract_json_block_from_text text) as [block|] eqn:Hb.
  - rewrite (CheckIP_extract_block _ _ _ _ Hb).
    destruct (truthy (_safe_json_loads json_loads block)); simpl.
    + destruct (_safe_json_loads json_loads block); simpl; intros <- He;
        try apply error_only_plain.
      rewrite promote_fields_error in He. by destruct He.
    + intros <- _. apply error_only_parse_failed.
  - rewrite CheckIP_extract_fallback by by apply takes_fallback_None.
    simpl. intros <- He. rewrite (fallback_scrape_error _ _ He).
    apply error_only_plain.
Qed.

(* ===================================================================== *)
(** * The properties of the specification *)
(* ===================================================================== *)

(** C1.  For every list [ips] of addresses, duplicates included, every
    positive worker count and every order in which the submitted tasks
    complete, the batch returns a list of results with exactly one record
    for each address of the input: the two lengths are equal. *)
Theorem Start_batch_result_count
        (json_loads : string → option pyval) (threads : Z)
        (ips user_agents : list string) (world : nat → task_world)
        (order : list nat) :
  (0 < threads)%Z →
  completion_order
    (submit_all json_loads (Executor threads []) ips user_agents world).1
    order →
  ∃ results,
    Start_batch json_loads threads ips user_agents world order
    = Returns results
    ∧ List.length results = List.length ips.
Proof.
  intros Hthreads Horder. unfold Start_batch, new_executor.
  destruct (threads <=? 0)%Z eqn:Hle; [lia|]. simpl.
  unfold submit_all in *.
  destruct (submit_all_inv json_loads user_agents world ips
              (∅, Executor threads [])) as [Hinv Hlen].
  { intros k. simpl. rewrite lookup_empty. split; [by intros [? ?] | lia]. }
  destruct (fold_left _ ips _) as [futures ex] eqn:Hfold. simpl in *.
  destruct (completion_order_keys futures order Horder) as [Hsize Hkeys].
  destruct (collect_length futures ex order [] Hinv Hkeys)
    as (results & Hc & Hl).
  exists results. split; [done|].
  pose proof (size_initial_segment futures _ Hinv) as Hs. simpl in Hs, Hl.
  lia.
Qed.

(** C3.  For every page text and every queried address, the extraction
    path, everything [CheckIP] does once the fetch has returned, ends by
    returning a result dictionary: it never raises.  (Every function of
    the model is total, so it always ends.)  The decoder may raise on any
    text; all that is used of it is that a text beginning with an opening
    brace decodes to a dictionary when it decodes. *)
Theorem CheckIP_extract_never_raises
        (json_loads : string → option pyval)
        (json_loads_object :
           ∀ s v, json_loads (String "{" s) = Some v → ∃ d, v = PDict d)
        (ip text : string) :
  ∃ d, CheckIP_extract json_loads ip text = Returns d.
Proof.
  destruct (CheckIP_extract_cases json_loads json_loads_object ip text)
    as [(_ & ->) | [(block & _ & _ & ->) | (block & parsed & _ & _ & _ & ->)]];
    eauto.
Qed.

(** C8.  Whatever the page and the network do, a record stored by the
    batch for a task (the dictionary [CheckIP] returns, or the one made
    from the exception it raised) that has an error key has no score, no
    risk and no _raw_parsed key: its keys are among ip, error and raw, and
    raw comes only with the error json_parse_failed. *)
Theorem error_excludes_extracted_data
        (json_loads : string → option pyval) (ip : string)
        (user_agents_list : option (list string)) (rnd : nat) (net : network)
        (d : pydict) :
  result_or_error ip (CheckIP json_loads ip user_agents_list rnd net) = d →
  is_Some (d !! "error") →
  d !! "score" = None ∧ d !! "risk" = None ∧ d !! "_raw_parsed" = None
  ∧ dom d ⊆ ({[ "ip"; "error"; "raw" ]} : gset string)
  ∧ (is_Some (d !! "raw") → d !! "error" = Some (PStr "json_parse_failed")).
Proof.
  unfold CheckIP.
  destruct (_choose_user_agent_returns user_agents_list rnd) as [ua ->].
  simpl. destruct (_fetch_page ip ua net) as [text|[cls msg]].
  - apply CheckIP_extract_error_only.
  - destruct cls; simpl; intros <- _; apply error_only_plain.
Qed.

(** C10.  The user agent reaches the request and nothing else: two
    lookups of the same address, with any two user-agent lists and any two
    random draws, return the same result (or raise the same exception) as
    soon as their fetches have the same outcome, the same page or the same
    failure. *)
Theorem user_agent_only_reaches_the_request
        (json_loads : string → option pyval) (ip : string)
        (uas1 uas2 : option (list string)) (rnd1 rnd2 : nat)
        (net1 net2 : network) (ua1 ua2 : string) :
  _choose_user_agent uas1 rnd1 = Returns ua1 →
  _choose_user_agent uas2 rnd2 = Returns ua2 →
  _fetch_page ip ua1 net1 = _fetch_page ip ua2 net2 →
  CheckIP json_loads ip uas1 rnd1 net1 = CheckIP json_loads ip uas2 rnd2 net2.
Proof.
  intros H1 H2 Hfetch. unfold CheckIP. rewrite H1, H2. simpl.
  by rewrite Hfetch.
Qed.

(** C9.  The scanner counts braces wherever they stand.  The text below is
    a JSON object whose one value is the string made of a closing brace;
    the brace inside that string brings the depth back to zero, the block
    ends there, at position 7 of 9, and the candidate handed to the
    decoder is a strict prefix of the object. *)
Theorem scanner_ignores_string_context :
  Json.loads (q "{'a':'}'}") = Some (PDict {[ "a" := PStr "}" ]})
  ∧ String.length (q "{'a':'}'}") = 9
  ∧ scan (q "{'a':'}'}") 0 0 = Some 7
  ∧ _extract_json_block_from_text (q "{'a':'}'}") = Some (q "{'a':'}")
  ∧ String.prefix (q "{'a':'}") (q "{'a':'}'}") = true
  ∧ q "{'a':'}" ≠ q "{'a':'}'}".
Proof. split_and!; vm_compute; first [reflexivity | discriminate]. Qed.

(** C5 (the code departs from the claim).  The page made of an empty
    object: the block is found, the strict attempt decodes it (to the empty
    dictionary), and yet the record says json_parse_failed, because the
    test [not parsed] also holds of an empty dictionary. *)
Theorem empty_object_reported_as_parse_failure :
  _extract_json_block_from_text "{}" = Some "{}"
  ∧ Json.loads "{}" = Some (PDict ∅)
  ∧ CheckIP_extract Json.loads "1.2.3.4" "{}"
    = Returns {[ "ip" := PStr "1.2.3.4";
                 "error" := PStr "json_parse_failed";
                 "raw" := PStr "{}" ]}.
Proof. split_and!; vm_compute; first [reflexivity | discriminate]. Qed.

(** C6, as stated, fails.  The page holds an object whose ip is the empty
    string; the parse succeeds and the empty string is promoted over the
    queried address. *)
Lemma ip_field_can_be_empty :
  ∃ d, CheckIP_extract Json.loads "1.2.3.4" (q "{'ip':''}") = Returns d
       ∧ d !! "ip" = Some (PStr EmptyString).
Proof.
  exists {[ "ip" := PStr EmptyString;
            "_raw_parsed" := PDict {[ "ip" := PStr EmptyString ]} ]}.
  split; vm_compute; reflexivity.
Qed.

(** C6, amended.  For a non-empty queried address, whatever the page and
    the network do, the record stored for the task has an ip field, and it
    is a non-empty string unless it was copied from the ip key of the
    object parsed from the page, in which case it is that value as it
    stands. *)
Theorem result_ip_field
        (json_loads : string → option pyval) (ip : string)
        (user_agents_list : option (list string)) (rnd : nat) (net : network)
        (d : pydict) :
  ip ≠ EmptyString →
  result_or_error ip (CheckIP json_loads ip user_agents_list rnd net) = d →
  ∃ v, d !! "ip" = Some v
       ∧ ((∃ s, v = PStr s ∧ s ≠ EmptyString)
          ∨ (∃ ua text block parsed,
               _choose_user_agent user_agents_list rnd = Returns ua
               ∧ _fetch_page ip ua net = Returns text
               ∧ _extract_json_block_from_text text = Some block
               ∧ _safe_json_loads json_loads block = PDict parsed
               ∧ parsed !! "ip" = Some v)).
Proof.
  intros Hip Hd.
  destruct (_choose_user_agent_returns user_agents_list rnd) as [ua Hua].
  unfold CheckIP in Hd. rewrite Hua in Hd. simpl in Hd.
  assert (∀ msg : string,
    d = {[ "ip" := PStr ip; "error" := PStr msg ]} →
    ∃ v, d !! "ip" = Some v
         ∧ ((∃ s, v = PStr s ∧ s ≠ EmptyString)
            ∨ (∃ ua text block parsed,
                 _choose_user_agent user_agents_list rnd = Returns ua
                 ∧ _fetch_page ip ua net = Returns text
                 ∧ _extract_json_block_from_text text = Some block
                 ∧ _safe_json_loads json_loads block = PDict parsed
                 ∧ parsed !! "ip" = Some v))) as Herr.
  { intros msg ->. exists (PStr ip).
    split; [by simplify_map_eq | left; eauto]. }
  destruct (_fetch_page ip ua net) as [text|[cls msg]] eqn:Hfetch.
  - destruct (_extract_json_block_from_text text) as [block|] eqn:Hb.
    + rewrite (CheckIP_extract_block _ _ _ _ Hb) in Hd.
      destruct (truthy (_safe_json_loads json_loads block)); simpl in Hd.
      * destruct (_safe_json_loads json_loads block) as [| | | | | |parsed]
          eqn:Hp; simpl in Hd; try by eapply Herr.
        subst d. rewrite promote_fields_ip.
        destruct (parsed !! "ip") as [v|] eqn:Hv; simpl.
        -- exists v. split; [done|]. right.
           exists ua, text, block, parsed. done.
        -- exists (PStr ip). split; [done | left; eauto].
      * subst d. exists (PStr ip).
        split; [by unfold parse_failed_record; simplify_map_eq | left; eauto].
    + rewrite CheckIP_extract_fallback in Hd by by apply takes_fallback_None.
      simpl in Hd.
      destruct (matched (PyStr.search (Re.field "ip") text)
                || matched (PyStr.search (Re.field "score") text)
                || matched (PyStr.search (Re.field "risk") text)) eqn:Hm.
      * subst d. rewrite (fallback_scrape_found ip text Hm "ip"). simpl.
        eexists. split; [done|]. left. eexists. split; [done|].
        destruct (PyStr.search (Re.field "ip") text) as [g|] eqn:Hg; simpl;
          [|done].
        by apply search_field_nonempty in Hg.
      * apply orb_false_iff in Hm as [[H1 H2]%orb_false_iff H3].
        rewrite fallback_scrape_not_found in Hd.
        -- by eapply Herr.
        -- by destruct (PyStr.search (Re.field "ip") text).
        -- by destruct (PyStr.search (Re.field "score") text).
        -- by destruct (PyStr.search (Re.field "risk") text).
  - destruct cls; simpl in Hd; by eapply Herr.
Qed.

(** C4, as stated, fails.  In this page an opening brace is found, at
    position 0, but it is never closed: no block is extracted, the degraded
    path is taken and its searches find the two fields. *)
Lemma fallback_runs_although_a_brace_is_found :
  first_brace (q "{'ip':'5.6.7.8','risk':'high'") = Some 0
  ∧ takes_fallback (q "{'ip':'5.6.7.8','risk':'high'") = true
  ∧ CheckIP_extract Json.loads "9.9.9.9" (q "{'ip':'5.6.7.8','risk':'high'")
    = Returns {[ "ip" := PStr "5.6.7.8"; "risk" := PStr "high" ]}.
Proof. split_and!; vm_compute; first [reflexivity | discriminate]. Qed.

(** C4, amended.  The degraded path is taken exactly when no block is
    extracted, that is when no opening brace stands at or after the anchor
    position or when the depth never returns to zero before the end of the
    text.  A block that is extracted and does not parse gives the
    json_parse_failed record, the searches being left out whatever the page
    holds.  When the degraded path is taken and at least one search
    matches, the result holds the ip (the matched one, or the queried one
    if the ip search does not match), the score and the risk exactly when
    their searches match, and nothing else; when none matches it is the
    record of ip and the error no_json_block_found. *)
Theorem fallback_tiering
        (json_loads : string → option pyval) (ip text : string) :
  (takes_fallback text = true
   ↔ first_brace text = None
     ∨ ∃ start, first_brace text = Some start
                ∧ scan (PyStr.drop start text) 0 start = None)
  ∧ (takes_fallback text = true →
     CheckIP_extract json_loads ip text = Returns (fallback_scrape ip text))
  ∧ (∀ block,
       _extract_json_block_from_text text = Some block →
       truthy (_safe_json_loads json_loads block) = false →
       takes_fallback text = false
       ∧ CheckIP_extract json_loads ip text
         = Returns {[ "ip" := PStr ip;
                      "error" := PStr "json_parse_failed";
                      "raw" := PStr (PyStr.take 200 block) ]})
  ∧ (matched (PyStr.search (Re.field "ip") text)
     || matched (PyStr.search (Re.field "score") text)
     || matched (PyStr.search (Re.field "risk") text) = true →
     ∀ k, fallback_scrape ip text !! k
          = if decide (k = "ip")
            then Some (PStr (default ip (PyStr.search (Re.field "ip") text)))
            else if decide (k = "score")
            then PStr <$> PyStr.search (Re.field "score") text
            else if decide (k = "risk")
            then PStr <$> PyStr.search (Re.field "risk") text
            else None)
  ∧ (matched (PyStr.search (Re.field "ip") text)
     || matched (PyStr.search (Re.field "score") text)
     || matched (PyStr.search (Re.field "risk") text) = false →
     fallback_scrape ip text
     = {[ "ip" := PStr ip; "error" := PStr "no_json_block_found" ]}).
Proof.
  split_and!.
  - rewrite takes_fallback_None.
    unfold _extract_json_block_from_text, raw_block.
    destruct (first_brace text) as [start|]; [|by split; eauto].
    destruct (scan (PyStr.drop start text) 0 start) as [end_|] eqn:Hs.
    + split; [done|]. intros [? | (start' & [= <-] & Hn)]; [done|].
      congruence.
    + split; [|done]. intros _. right. eauto.
  - apply CheckIP_extract_fallback.
  - intros block Hb Ht. split.
    + destruct (takes_fallback text) eqn:Hf; [|done].
      apply takes_fallback_None in Hf. congruence.
    + by apply CheckIP_extract_parse_failed.
  - apply fallback_scrape_found.
  - intros [[H1 H2]%orb_false_iff H3]%orb_false_iff.
    apply fallback_scrape_not_found.
    + by destruct (PyStr.search (Re.field "ip") text).
    + by destruct (PyStr.search (Re.field "score") text).
    + by destruct (PyStr.search (Re.field "risk") text).
Qed.

(** C2, as stated, fails.  The page is the anchor phrase followed by a
    valid object with the three string fields and a fourth one holding a
    URL.  The two slashes of the URL are taken for the start of a comment,
    the rest of the block is removed, the parse fails, and the result has
    neither score nor risk. *)
Lemma roundtrip_fails_on_a_url :
  Json.loads
    (q "{'ip':'1.2.3.4','score':'10','risk':'low','url':'https://scamalytics.com'}")
  = Some (PDict {[ "ip" := PStr "1.2.3.4"; "score" := PStr "10";
                   "risk" := PStr "low";
                   "url" := PStr "https://scamalytics.com" ]})
  ∧ CheckIP_extract Json.loads "9.9.9.9"
      (marker ++
       q "{'ip':'1.2.3.4','score':'10','risk':'low','url':'https://scamalytics.com'}")
    = Returns
        {[ "ip" := PStr "9.9.9.9";
           "error" := PStr "json_parse_failed";
           "raw" :=
             PStr (q "{'ip':'1.2.3.4','score':'10','risk':'low','url':'https:") ]}.
Proof. split; vm_compute; reflexivity. Qed.

Lemma raw_block_marker_object object :
  String.prefix "{" object = true →
  scan object 0 0 = Some (String.length object) →
  raw_block (marker ++ object) = Some object.
Proof.
  intros [r ->]%PyStrFacts.prefix_char Hscan.
  unfold raw_block, first_brace, marker_pos.
  rewrite (PyStrFacts.find_0_prefix _ _ (PyStrFacts.prefix_app marker _)).
  rewrite (PyStrFacts.find_char_app marker "{" r) by done.
  rewrite PyStrFacts.drop_app.
  pose proof (scan_shift (String "{" r) 0 0 (String.length marker)) as Hsh.
  rewrite Nat.add_0_l in Hsh. rewrite Hsh, Hscan.
  simpl fmap. f_equal. unfold PyStr.slice.
  rewrite PyStrFacts.substring_drop, PyStrFacts.drop_app.
  replace (S (String.length r + 17) - String.length marker)
    with (String.length (String "{" r)) by (simpl; lia).
  apply PyStrFacts.take_length.
Qed.

(** C2, amended.  The page is the anchor phrase followed by an object
    text that begins with its opening brace, on which the brace count comes
    back to zero at its last character and not before, and which the
    clean-up leaves as it is.  If the decoder reads that text as an object
    with string fields ip, score and risk, the lookup returns a result
    with exactly those three values (and the parsed object, and no
    error). *)
Theorem roundtrip_of_a_clean_object
        (json_loads : string → option pyval) (ip object : string)
        (parsed : pydict) (ipv scorev riskv : string) :
  String.prefix "{" object = true →
  scan object 0 0 = Some (String.length object) →
  sanitize object = object →
  json_loads object = Some (PDict parsed) →
  parsed !! "ip" = Some (PStr ipv) →
  parsed !! "score" = Some (PStr scorev) →
  parsed !! "risk" = Some (PStr riskv) →
  ∃ d, CheckIP_extract json_loads ip (marker ++ object) = Returns d
       ∧ d !! "ip" = Some (PStr ipv)
       ∧ d !! "score" = Some (PStr scorev)
       ∧ d !! "risk" = Some (PStr riskv)
       ∧ d !! "_raw_parsed" = Some (PDict parsed)
       ∧ d !! "error" = None.
Proof.
  intros Hhead Hscan Hclean Hloads Hip Hscore Hrisk.
  assert (_extract_json_block_from_text (marker ++ object) = Some object)
    as Hb.
  { unfold _extract_json_block_from_text.
    by rewrite (raw_block_marker_object _ Hhead Hscan), Hclean. }
  exists (promote_fields ip parsed). split_and!.
  - apply (CheckIP_extract_parsed _ _ _ _ _ Hb).
    + unfold _safe_json_loads. by rewrite Hloads.
    + intros ->. by rewrite lookup_empty in Hip.
  - by rewrite promote_fields_ip, Hip.
  - by rewrite promote_fields_score.
  - by rewrite promote_fields_risk.
  - apply promote_fields_raw_parsed.
  - apply promote_fields_error.
Qed.

(* ===================================================================== *)
(** * The properties at concrete inputs *)
(* ===================================================================== *)


(** C1 on a batch of three addresses, two of them equal, run by two
    workers, the last task completing first. *)
Lemma Start_batch_result_count_witness :
  (0 < 2)%Z
  ∧ completion_order
      (submit_all Json.loads (Executor 2 [])
                  ["1.1.1.1"; "8.8.8.8"; "1.1.1.1"] [] demo_world).1
      [2; 0; 1]
  ∧ ∃ results,
      Start_batch Json.loads 2 ["1.1.1.1"; "8.8.8.8"; "1.1.1.1"] []
                  demo_world [2; 0; 1]
      = Returns results
      ∧ List.length results = 3.
Proof.
  assert (completion_order
            (submit_all Json.loads (Executor 2 [])
                        ["1.1.1.1"; "8.8.8.8"; "1.1.1.1"] [] demo_world).1
            [2; 0; 1]) as Horder.
  { unfold completion_order.
    replace ((map_to_list _).*1) with [2; 1; 0] by (vm_compute; reflexivity).
    apply perm_skip, perm_swap. }
  split_and!; [lia | done |].
  apply (Start_batch_result_count Json.loads 2
           ["1.1.1.1"; "8.8.8.8"; "1.1.1.1"] [] demo_world [2; 0; 1]);
    [lia | done].
Defined.

(** C2 on the anchor phrase followed by an object of the three fields. *)
Lemma roundtrip_of_a_clean_object_witness :
  ∃ d, CheckIP_extract Json.loads "9.9.9.9"
         (marker ++ q "{'ip':'1.2.3.4','score':'10','risk':'low'}")
       = Returns d
       ∧ d !! "ip" = Some (PStr "1.2.3.4")
       ∧ d !! "score" = Some (PStr "10")
       ∧ d !! "risk" = Some (PStr "low")
       ∧ d !! "_raw_parsed"
         = Some (PDict {[ "ip" := PStr "1.2.3.4"; "score" := PStr "10";
                          "risk" := PStr "low" ]})
       ∧ d !! "error" = None.
Proof.
  apply (roundtrip_of_a_clean_object Json.loads "9.9.9.9"
           (q "{'ip':'1.2.3.4','score':'10','risk':'low'}")
           {[ "ip" := PStr "1.2.3.4"; "score" := PStr "10";
              "risk" := PStr "low" ]}
           "1.2.3.4" "10" "low"); vm_compute; reflexivity.
Defined.

(** C3 with the reference decoder, on a page whose block does not
    parse. *)
Lemma CheckIP_extract_never_raises_witness :
  ∃ d, CheckIP_extract Json.loads "9.9.9.9"
         (q "IP Fraud Risk API {'ip': 1.2.3.4}") = Returns d.
Proof.
  apply (CheckIP_extract_never_raises Json.loads JsonFacts.loads_object).
Defined.

(** C6 on the lookup of one address over [demo_net]. *)
Lemma result_ip_field_witness :
  "8.8.8.8" ≠ EmptyString
  ∧ ∃ v, result_or_error "8.8.8.8" (CheckIP Json.loads "8.8.8.8" None 0 demo_net)
         !! "ip" = Some v
         ∧ ((∃ s, v = PStr s ∧ s ≠ EmptyString)
            ∨ (∃ ua text block parsed,
                 _choose_user_agent None 0 = Returns ua
                 ∧ _fetch_page "8.8.8.8" ua demo_net = Returns text
                 ∧ _extract_json_block_from_text text = Some block
                 ∧ _safe_json_loads Json.loads block = PDict parsed
                 ∧ parsed !! "ip" = Some v)).
Proof.
  split; [done|].
  apply (result_ip_field Json.loads "8.8.8.8" None 0 demo_net); done.
Defined.


(** C8 on the record of a lookup whose fetch fails. *)
Lemma error_excludes_extracted_data_witness :
  let d := result_or_error "8.8.8.8"
             (CheckIP Json.loads "8.8.8.8" None 0 dead_net) in
  is_Some (d !! "error")
  ∧ d !! "score" = None ∧ d !! "risk" = None ∧ d !! "_raw_parsed" = None
  ∧ dom d ⊆ ({[ "ip"; "error"; "raw" ]} : gset string)
  ∧ (is_Some (d !! "raw") → d !! "error" = Some (PStr "json_parse_failed")).
Proof.
  intros d.
  assert (is_Some (d !! "error")) as He by (vm_compute; eauto).
  split; [done|].
  by apply (error_excludes_extracted_data Json.loads "8.8.8.8" None 0
              dead_net d).
Defined.

(** C10 on two lookups of one address, the first with the default user
    agents, the second with a list of its own and another draw. *)
Lemma user_agent_only_reaches_the_request_witness :
  CheckIP Json.loads "8.8.8.8" None 1 demo_net
  = CheckIP Json.loads "8.8.8.8" (Some ["curl/8.5.0"; "Wget/1.21"]) 7 demo_net.
Proof.
  eapply (user_agent_only_reaches_the_request Json.loads "8.8.8.8"
            None (Some ["curl/8.5.0"; "Wget/1.21"]) 1 7 demo_net demo_net);
    reflexivity.
Defined.

(** C4 on a page whose block is extracted and does not parse, although
    the searches would match in it. *)
Lemma fallback_tiering_witness :
  takes_fallback (q "{'ip':'5.6.7.8' 'risk':'high'}") = false
  ∧ PyStr.search (Re.field "ip") (q "{'ip':'5.6.7.8' 'risk':'high'}")
    = Some "5.6.7.8"
  ∧ CheckIP_extract Json.loads "9.9.9.9" (q "{'ip':'5.6.7.8' 'risk':'high'}")
    = Returns {[ "ip" := PStr "9.9.9.9";
                 "error" := PStr "json_parse_failed";
                 "raw" := PStr (PyStr.take 200
                                  (q "{'ip':'5.6.7.8' 'risk':'high'}")) ]}.
Proof.
  destruct (fallback_tiering Json.loads "9.9.9.9"
              (q "{'ip':'5.6.7.8' 'risk':'high'}"))
    as (_ & _ & Hblock & _ & _).
  destruct (Hblock (q "{'ip':'5.6.7.8' 'risk':'high'}")) as [Hf Hr];
    [vm_compute; reflexivity .. |].
  split_and!; [done | vm_compute; reflexivity | done].
Defined.

(* ===================================================================== *)
(** * The examples of the specification *)
(* ===================================================================== *)

(** An object holding a nested object is extracted whole. *)
Example nested_braces_extracted_whole :
  _extract_json_block_from_text
    (q "IP Fraud Risk API {'ip':'1.2.3.4','geo':{'cc':'US'},'score':'10'} tail }")
  = Some (q "{'ip':'1.2.3.4','geo':{'cc':'US'},'score':'10'}").
Proof. vm_compute. reflexivity. Qed.

(** A comma before the closing brace is removed before the parse. *)
Example trailing_comma_tolerated :
  CheckIP_extract Json.loads "9.9.9.9" (q "{'ip':'1.2.3.4','score':'10',}")
  = Returns {[ "ip" := PStr "1.2.3.4"; "score" := PStr "10";
               "_raw_parsed" :=
                 PDict {[ "ip" := PStr "1.2.3.4"; "score" := PStr "10" ]} ]}.
Proof. vm_compute. reflexivity. Qed.

(** Single quotes are accepted at the second attempt. *)
Example single_quotes_tolerated :
  Json.loads "{'ip':'1.2.3.4','score':'10'}" = None
  ∧ CheckIP_extract Json.loads "9.9.9.9" "{'ip':'1.2.3.4','score':'10'}"
    = Returns {[ "ip" := PStr "1.2.3.4"; "score" := PStr "10";
                 "_raw_parsed" :=
                   PDict {[ "ip" := PStr "1.2.3.4"; "score" := PStr "10" ]} ]}.
Proof. split; vm_compute; reflexivity. Qed.

(** Neither anchor nor brace nor field. *)
Example nothing_found :
  CheckIP_extract Json.loads "9.9.9.9" "<html>no data</html>"
  = Returns {[ "ip" := PStr "9.9.9.9";
               "error" := PStr "no_json_block_found" ]}.
Proof. vm_compute. reflexivity. Qed.

(** The fields are scraped from a page with the anchor and no block. *)
Example fields_scraped_without_a_block :
  CheckIP_extract Json.loads "9.9.9.9"
    (q "IP Fraud Risk API 'ip':'5.6.7.8','risk':'high'")
  = Returns {[ "ip" := PStr "5.6.7.8"; "risk" := PStr "high" ]}.
Proof. vm_compute. reflexivity. Qed.

(** A placeholder object is cleaned into the empty object and reported as
    a parse failure. *)
Example placeholder_object :
  CheckIP_extract Json.loads "1.2.3.4" "IP Fraud Risk API {...}"
  = Returns {[ "ip" := PStr "1.2.3.4";
               "error" := PStr "json_parse_failed";
               "raw" := PStr "{}" ]}.
Proof. vm_compute. reflexivity. Qed.

(** One task of ten whose fetch times out leaves the other nine with their
    results: the error fields of the ten records, in the order of
    completion. *)
Example one_timeout_among_ten :
  match
    Start_batch Json.loads 2
      ["1.0.0.0"; "1.0.0.1"; "1.0.0.2"; "1.0.0.3"; "1.0.0.4";
       "1.0.0.5"; "1.0.0.6"; "1.0.0.7"; "1.0.0.8"; "1.0.0.9"] []
      (λ k, if (k =? 4)%nat then TaskWorld 0 dead_net
            else TaskWorld 0 demo_net)
      [1; 0; 2; 3; 5; 4; 7; 6; 9; 8]
  with
  | Returns results => (λ d : pydict, d !! "error") <$> results
  | Raises _ => []
  end
  = [None; None; None; None; None; Some (PStr "http_error: timed out");
     None; None; None; None].
Proof. vm_compute. reflexivity. Qed.

(* ===================================================================== *)
(** * Further properties of the code *)
(* ===================================================================== *)

Set Warnings "-clear-no-such-hyp".

(* ===================================================================== *)
(** * More facts about strings *)
(* ===================================================================== *)

Lemma app_nil_str t : EmptyString ++ t = t.
Proof. reflexivity. Qed.

Lemma app_cons_str c s t : String c s ++ t = String c (s ++ t).
Proof. reflexivity. Qed.

Lemma length_app_str s t :
  String.length (s ++ t) = (String.length s + String.length t)%nat.
Proof.
  induction s as [|c s IH]; [done|]. rewrite app_cons_str. simpl.
  by rewrite IH.
Qed.

Lemma take_drop_str n s : s = PyStr.take n s ++ PyStr.drop n s.
Proof.
  unfold PyStr.take. revert s.
  induction n as [|n IH]; intros [|c s]; try done.
  cbn [substring PyStr.drop]. rewrite app_cons_str. by rewrite <- IH.
Qed.

Lemma take_0 s : PyStr.take 0 s = EmptyString.
Proof. by destruct s. Qed.

Lemma take_length_le n s : (String.length (PyStr.take n s) ≤ n)%nat.
Proof.
  unfold PyStr.take. revert s.
  induction n as [|n IH]; intros [|c s]; simpl; try lia.
  specialize (IH s). lia.
Qed.

Lemma take_length_min n s :
  String.length (PyStr.take n s) = Nat.min n (String.length s).
Proof.
  unfold PyStr.take. revert s.
  induction n as [|n IH]; intros [|c s]; simpl; try done.
  by rewrite IH.
Qed.

Lemma take_take n m s :
  (n ≤ m)%nat → PyStr.take n (PyStr.take m s) = PyStr.take n s.
Proof.
  unfold PyStr.take. revert m s.
  induction n as [|n IH]; intros [|m] [|c s] Hle; simpl; try done; try lia.
  rewrite IH; [done | lia].
Qed.

Lemma drop_drop n m s : PyStr.drop n (PyStr.drop m s) = PyStr.drop (m + n) s.
Proof.
  revert s. induction m as [|m IH]; intros s; simpl.
  - by destruct s.
  - destruct s as [|c s]; [by destruct n | apply IH].
Qed.

Lemma count_char_app c s t :
  count_char c (s ++ t) = (count_char c s + count_char c t)%nat.
Proof.
  induction s as [|a s IH]; [done|]. rewrite app_cons_str. simpl.
  rewrite IH. lia.
Qed.

Lemma balance_cons c s :
  balance (String c s)
  = ((if Ascii.eqb c "{" then 1 else 0) - (if Ascii.eqb c "}" then 1 else 0)
     + balance s)%Z.
Proof.
  unfold balance. cbn [count_char].
  destruct (Ascii.eqb c "{"), (Ascii.eqb c "}"); lia.
Qed.

(* ===================================================================== *)
(** * More facts about the scanner *)
(* ===================================================================== *)

Lemma scan_bound s depth i end_ :
  scan s depth i = Some end_ → (end_ ≤ i + String.length s)%nat.
Proof.
  revert depth i. induction s as [|ch s IH]; intros depth i; simpl; [done|].
  destruct (Ascii.eqb ch "{"); [intros H%IH; lia|].
  destruct (Ascii.eqb ch "}"); [|intros H%IH; lia].
  destruct (depth - 1 =? 0)%Z; [intros [= <-]; lia | intros H%IH; lia].
Qed.

(** From a positive depth, the scan stops at the first closing brace that
    brings the count back to zero. *)
Lemma scan_balance s depth i end_ :
  (1 ≤ depth)%Z → scan s depth i = Some end_ →
  (depth + balance (PyStr.take (end_ - i) s) = 0)%Z
  ∧ (∀ n, (n < end_ - i)%nat → (0 < depth + balance (PyStr.take n s))%Z)
  ∧ ∃ p, PyStr.take (end_ - i) s = p ++ "}".
Proof.
  revert depth i. induction s as [|ch s IH]; intros depth i Hd; [done|].
  cbn [scan]. intros Hs.
  assert (i < end_)%nat as Hlt by (by eapply (scan_gt (String ch s) depth)).
  replace (end_ - i)%nat with (S (end_ - (i + 1))) by lia.
  assert (∀ n, PyStr.take (S n) (String ch s) = String ch (PyStr.take n s))
    as Htake by done.
  rewrite Htake, balance_cons.
  assert (∀ d', scan s d' (i + 1) = Some end_ → (1 ≤ d')%Z →
            (d' = depth + (if Ascii.eqb ch "{" then 1 else 0)
                  - (if Ascii.eqb ch "}" then 1 else 0))%Z →
            (depth +
             ((if Ascii.eqb ch "{" then 1 else 0)
              - (if Ascii.eqb ch "}" then 1 else 0)
              + balance (PyStr.take (end_ - (i + 1)) s)) = 0)%Z
            ∧ (∀ n, (n < S (end_ - (i + 1)))%nat →
                    (0 < depth + balance (PyStr.take n (String ch s)))%Z)
            ∧ ∃ p, String ch (PyStr.take (end_ - (i + 1)) s) = p ++ "}")
    as Hrec.
  { intros d' Hs' Hd' Heq.
    destruct (IH d' (i + 1) Hd' Hs') as (Hbal & Hpre & p & Hp).
    split_and!.
    - lia.
    - intros [|n] Hn; [rewrite take_0; unfold balance; simpl; lia|].
      rewrite Htake, balance_cons. specialize (Hpre n). lia.
    - exists (String ch p). by rewrite Hp. }
  destruct (Ascii.eqb ch "{") eqn:Ho.
  { assert (Ascii.eqb ch "}" = false) as Hc.
    { apply Ascii.eqb_eq in Ho as ->. done. }
    rewrite Hc in *. apply (Hrec (depth + 1)%Z); [done | lia | lia]. }
  destruct (Ascii.eqb ch "}") eqn:Hc; [|apply (Hrec depth); [done | lia | lia]].
  destruct (depth - 1 =? 0)%Z eqn:Hz.
  - injection Hs as <-. replace (i + 1 - (i + 1))%nat with 0%nat by lia.
    apply Z.eqb_eq in Hz. split_and!.
    + rewrite take_0. unfold balance. simpl. lia.
    + intros n Hn. assert (n = 0)%nat as -> by lia.
      rewrite take_0. unfold balance. simpl. lia.
    + exists EmptyString. apply Ascii.eqb_eq in Hc as ->. by rewrite take_0.
  - apply Z.eqb_neq in Hz. apply (Hrec (depth - 1)%Z); [done | lia | lia].
Qed.

(** Before its result, a one-character [find] meets no such character. *)
Lemma find_char_first c text n start :
  PyStr.find (String c EmptyString) text n = Some start →
  (n ≤ start)%nat ∧ count_char c (PyStr.slice text n start) = 0%nat.
Proof.
  unfold PyStr.find, PyStr.slice. revert n start.
  induction text as [|b text IH]; intros n start.
  - destruct n; done.
  - cbn [String.index]. destruct n as [|n].
    + destruct (String.prefix (String c EmptyString) (String b text)) eqn:Hp.
      * intros [= <-]. done.
      * destruct (index 0 (String c EmptyString) text) as [k|] eqn:Hk;
          [|done].
        intros [= <-]. destruct (IH 0%nat k Hk) as [_ Hc]. split; [lia|].
        rewrite Nat.sub_0_r in Hc |- *. cbn [substring count_char].
        rewrite Hc. destruct (Ascii.eqb b c) eqn:Hbc; [|done].
        apply Ascii.eqb_eq in Hbc as ->.
        rewrite (proj2 (prefix_correct (String c EmptyString) (String c text)))
          in Hp; [done|]. simpl. by destruct text.
    + destruct (index n (String c EmptyString) text) as [k|] eqn:Hk; [|done].
      intros [= <-]. destruct (IH n k Hk) as [Hle Hc]. split; [lia|].
      cbn [substring]. by replace (S k - S n)%nat with (k - n)%nat by lia.
Qed.

(* ===================================================================== *)
(** * The extracted block *)
(* ===================================================================== *)

(** X1.  The block cut out of the page begins with an opening brace, ends
    with a closing brace, has as many opening as closing braces, and none
    of its proper prefixes has: it ends at the first return of the depth
    to zero. *)
Theorem raw_block_balanced (text b : string) :
  raw_block text = Some b →
  (∃ r, b = String "{" r)
  ∧ (∃ p, b = p ++ "}")
  ∧ balance b = 0%Z
  ∧ ∀ n, (0 < n < String.length b)%nat → (0 < balance (PyStr.take n b))%Z.
Proof.
  unfold raw_block, first_brace.
  destruct (PyStr.find "{" text (marker_pos text)) as [start|] eqn:Hf; [|done].
  destruct (scan (PyStr.drop start text) 0 start) as [end_|] eqn:Hs; [|done].
  intros [= <-].
  apply PyStrFacts.find_char_drop in Hf as [r Hr].
  pose proof (scan_gt _ _ _ _ Hs) as Hlt.
  rewrite (PyStrFacts.slice_head _ _ _ _ _ Hr Hlt).
  rewrite Hr in Hs. cbn [scan Ascii.eqb Bool.eqb] in Hs.
  destruct (scan_balance r (0 + 1) (start + 1) end_ ltac:(lia) Hs)
    as (Hbal & Hpre & p & Hp).
  replace (end_ - (start + 1))%nat with (end_ - start - 1)%nat in * by lia.
  split_and!.
  - eauto.
  - exists (String "{" p). by rewrite Hp.
  - rewrite balance_cons. simpl. lia.
  - intros [|n] [Hn1 Hn2]; [lia|]. simpl in Hn2.
    change (PyStr.take (S n) (String "{" ?x)) with (String "{" (PyStr.take n x)).
    rewrite take_take by (rewrite take_length_min in Hn2; lia).
    rewrite balance_cons. simpl.
    rewrite take_length_min in Hn2. specialize (Hpre n). lia.
Qed.

(** X2.  The block stands in the page at the first opening brace at or
    after the anchor position: the page is what precedes that brace, the
    block, and a rest, and no opening brace lies between the anchor
    position and the block. *)
Theorem raw_block_position (text b : string) :
  raw_block text = Some b →
  ∃ start post,
    first_brace text = Some start
    ∧ (marker_pos text ≤ start)%nat
    ∧ text = PyStr.take start text ++ b ++ post
    ∧ count_char "{" (PyStr.slice text (marker_pos text) start) = 0%nat.
Proof.
  unfold raw_block, first_brace.
  destruct (PyStr.find "{" text (marker_pos text)) as [start|] eqn:Hf; [|done].
  destruct (scan (PyStr.drop start text) 0 start) as [end_|] eqn:Hs; [|done].
  intros [= <-].
  destruct (find_char_first _ _ _ _ Hf) as [Hle Hc].
  exists start, (PyStr.drop (end_ - start) (PyStr.drop start text)).
  split_and!; [done..| |done].
  unfold PyStr.slice. rewrite PyStrFacts.substring_drop.
  fold (PyStr.take (end_ - start) (PyStr.drop start text)).
  rewrite <- take_drop_str. apply take_drop_str.
Qed.

(** A replacement that puts no more than it takes gives a text no longer
    than the one it is given. *)
Lemma sub_go_length m repl s skip :
  (∀ t n, m t = Some n →
          (String.length repl ≤ n ∧ n ≤ String.length t)%nat) →
  (String.length (PyStr.sub_go m repl skip s)
   + Nat.min skip (String.length s) ≤ String.length s)%nat.
Proof.
  intros Hm. revert skip.
  induction s as [|c s IH]; intros skip; [simpl; lia|].
  cbn [PyStr.sub_go]. destruct skip as [|k].
  - destruct (m (String c s)) as [[|n]|] eqn:Hn.
    + specialize (IH 0%nat). simpl in *. lia.
    + destruct (Hm _ _ Hn) as [H1 H2]. specialize (IH n).
      rewrite length_app_str. simpl in *. lia.
    + specialize (IH 0%nat). simpl in *. lia.
  - specialize (IH k). simpl in *. lia.
Qed.

Lemma sub_all_length m repl s :
  (∀ t n, m t = Some n →
          (String.length repl ≤ n ∧ n ≤ String.length t)%nat) →
  (String.length (PyStr.sub_all m repl s) ≤ String.length s)%nat.
Proof.
  intros Hm. pose proof (sub_go_length m repl s 0 Hm). unfold PyStr.sub_all.
  simpl in *. lia.
Qed.

Lemma tag_bound t n :
  Re.tag t = Some n → (0 ≤ n ∧ n ≤ String.length t)%nat.
Proof.
  unfold Re.tag. destruct t as [|c r]; [done|].
  pose proof (PyStrFacts.drop_length
                (PyStr.span (λ c, negb (Ascii.eqb c ">")) r) r) as Hd.
  pose proof (PyStrFacts.span_length (λ c, negb (Ascii.eqb c ">")) r) as Hs.
  repeat case_match; try done.
  all: intros [= <-]; simplify_eq; simpl in *; lia.
Qed.

Lemma literal_bound old t n :
  PyStr.literal old t = Some n → (n ≤ String.length t)%nat.
Proof.
  unfold PyStr.literal. destruct (String.prefix old t) eqn:Hp; [|done].
  intros [= <-]. by apply PyStrFacts.prefix_length.
Qed.

Lemma line_comment_bound t n :
  Re.line_comment t = Some n → (n ≤ String.length t)%nat.
Proof.
  unfold Re.line_comment. destruct t as [|c [|c' r]]; try done.
  - repeat case_match; done.
  - pose proof (PyStrFacts.span_length
                  (λ c, negb (Ascii.eqb c PyStr.newline)) r).
    repeat case_match; try done; intros [= <-]; simpl; lia.
Qed.

Lemma comma_before_bound close t n :
  Re.comma_before close t = Some n → (1 ≤ n ∧ n ≤ String.length t)%nat.
Proof.
  unfold Re.comma_before. destruct t as [|c r]; [done|].
  pose proof (PyStrFacts.drop_length (PyStr.span PyStr.is_space r) r) as Hd.
  pose proof (PyStrFacts.span_length PyStr.is_space r) as Hs.
  repeat case_match; try done.
  all: intros [= <-]; simplify_eq; simpl in *; lia.
Qed.

Lemma sanitize_length candidate :
  (String.length (sanitize candidate) ≤ String.length candidate)%nat.
Proof.
  unfold sanitize, PyStr.replace.
  etrans; [apply sub_all_length|].
  { intros t n [? ?]%comma_before_bound. simpl. lia. }
  etrans; [apply sub_all_length|].
  { intros t n [? ?]%comma_before_bound. simpl. lia. }
  etrans; [apply sub_all_length|].
  { intros t n ?%line_comment_bound. simpl. lia. }
  etrans; [apply sub_all_length|].
  { intros t n ?%literal_bound. simpl. lia. }
  apply sub_all_length.
  intros t n ?%tag_bound. simpl. lia.
Qed.

Lemma raw_block_length text b :
  raw_block text = Some b → (String.length b ≤ String.length text)%nat.
Proof.
  unfold raw_block.
  destruct (first_brace text) as [start|]; [|done].
  destruct (scan (PyStr.drop start text) 0 start) as [end_|]; [|done].
  intros [= <-]. unfold PyStr.slice. rewrite PyStrFacts.substring_drop.
  fold (PyStr.take (end_ - start) (PyStr.drop start text)).
  rewrite take_length_min, PyStrFacts.drop_length. lia.
Qed.

(** X3.  The block handed to the decoder is the raw block after the
    clean-up; it still begins with the opening brace, and the clean-up
    only ever shortens: the block is no longer than the raw block, which
    is no longer than the page. *)
Theorem extracted_block_shape (text b : string) :
  _extract_json_block_from_text text = Some b →
  ∃ raw r,
    raw_block text = Some raw
    ∧ b = sanitize raw
    ∧ b = String "{" r
    ∧ (String.length b ≤ String.length raw)%nat
    ∧ (String.length raw ≤ String.length text)%nat.
Proof.
  intros Hb. destruct (extract_head _ _ Hb) as [r Hr].
  unfold _extract_json_block_from_text in Hb.
  destruct (raw_block text) as [raw|] eqn:Hraw; [|done].
  injection Hb as <-. exists raw, r. split_and!; try done.
  - apply sanitize_length.
  - by apply raw_block_length.
Qed.

(* ===================================================================== *)
(** * More facts about [CheckIP] *)
(* ===================================================================== *)

(** The three ways the extraction path returns, for any decoder. *)
Lemma CheckIP_extract_inv json_loads ip text d :
  CheckIP_extract json_loads ip text = Returns d →
  (_extract_json_block_from_text text = None ∧ d = fallback_scrape ip text)
  ∨ (∃ block,
       _extract_json_block_from_text text = Some block
       ∧ truthy (_safe_json_loads json_loads block) = false
       ∧ d = parse_failed_record ip block)
  ∨ (∃ block parsed,
       _extract_json_block_from_text text = Some block
       ∧ _safe_json_loads json_loads block = PDict parsed
       ∧ d = promote_fields ip parsed).
Proof.
  destruct (_extract_json_block_from_text text) as [block|] eqn:Hb.
  - rewrite (CheckIP_extract_block _ _ _ _ Hb).
    destruct (truthy (_safe_json_loads json_loads block)) eqn:Ht; simpl.
    + destruct (_safe_json_loads json_loads block) eqn:Hp; try done.
      intros [= <-]. right. right. eauto.
    + intros [= <-]. right. left. eauto.
  - rewrite CheckIP_extract_fallback by by apply takes_fallback_None.
    intros [= <-]. by left.
Qed.

Lemma promote_fields_lookup ip parsed k :
  promote_fields ip parsed !! k
  = if decide (k = "_raw_parsed") then Some (PDict parsed)
    else if decide (k = "ip") then Some (default (PStr ip) (parsed !! "ip"))
    else if decide (k ∈ promoted_keys) then parsed !! k
    else None.
Proof.
  unfold promote_fields, promoted_keys. simpl.
  destruct (decide (k = "_raw_parsed")) as [->|H0]; [by rewrite lookup_insert_eq|].
  rewrite lookup_insert_ne by done.
  rewrite !copy_if_present_lookup.
  destruct (decide (k = "ip")) as [->|H1]; [by simplify_map_eq|].
  repeat (case_decide; simplify_eq);
    try (by destruct (parsed !! _));
    try (by simplify_map_eq);
    try (exfalso; set_solver).
  all: try (match goal with H : _ ∈ _ |- _ =>
              exfalso; set_unfold; naive_solver end).
Qed.

Lemma fallback_scrape_other ip text k :
  k ≠ "ip" → k ≠ "score" → k ≠ "risk" → k ≠ "error" →
  fallback_scrape ip text !! k = None.
Proof.
  intros H1 H2 H3 H4.
  destruct (matched (PyStr.search (Re.field "ip") text)
            || matched (PyStr.search (Re.field "score") text)
            || matched (PyStr.search (Re.field "risk") text)) eqn:Hm.
  - rewrite (fallback_scrape_found ip text Hm k). by repeat case_decide.
  - apply orb_false_iff in Hm as [[Ha Hb]%orb_false_iff Hc].
    rewrite fallback_scrape_not_found.
    + by simplify_map_eq.
    + by destruct (PyStr.search (Re.field "ip") text).
    + by destruct (PyStr.search (Re.field "score") text).
    + by destruct (PyStr.search (Re.field "risk") text).
Qed.

(** X4.  A result has a raw snippet only on the parse-failure path, and
    the snippet is then the beginning of the cleaned block: at most 200
    characters, the opening brace first, the whole block when it has no
    more than 200 characters. *)
Theorem raw_snippet_is_a_prefix
        (json_loads : string → option pyval) (ip text : string)
        (d : pydict) (v : pyval) :
  CheckIP_extract json_loads ip text = Returns d →
  d !! "raw" = Some v →
  ∃ block r,
    _extract_json_block_from_text text = Some block
    ∧ d !! "error" = Some (PStr "json_parse_failed")
    ∧ v = PStr (PyStr.take 200 block)
    ∧ PyStr.take 200 block = String "{" r
    ∧ (String.length (PyStr.take 200 block) ≤ 200)%nat
    ∧ block = PyStr.take 200 block ++ PyStr.drop 200 block
    ∧ ((String.length block ≤ 200)%nat → PyStr.take 200 block = block).
Proof.
  intros [(_ & ->) | [(block & Hb & _ & ->) | (block & p & _ & _ & ->)]]
    %CheckIP_extract_inv Hraw.
  - by rewrite fallback_scrape_other in Hraw.
  - destruct (extract_head _ _ Hb) as [r ->].
    unfold parse_failed_record in *. simplify_map_eq.
    exists (String "{"%char r), (PyStr.take 199 r). split_and!; try done.
    + apply take_length_le.
    + apply take_drop_str.
    + intros Hlen. pose proof (take_drop_str 200 (String "{" r)) as Htd.
      assert (PyStr.drop 200 (String "{" r) = EmptyString) as Hd.
      { pose proof (PyStrFacts.drop_length 200 (String "{" r)) as Hl.
        destruct (PyStr.drop 200 (String "{" r)); [done|]. simpl in *. lia. }
      rewrite Hd in Htd. rewrite Htd at 2.
      clear. generalize (PyStr.take 200 (String "{" r)).
      intros s. induction s as [|c s IH]; [done|].
      rewrite app_cons_str. by rewrite <- IH.
  - by rewrite promote_fields_lookup in Hraw.
Qed.

(** X5.  On a successful parse only the listed fields of the payload are
    promoted, each with the payload's own value; the ip is the payload's
    when it has one and the queried one otherwise; whatever else the
    payload holds (an error key, say) stays inside _raw_parsed. *)
Theorem promoted_fields_are_the_payloads
        (json_loads : string → option pyval) (ip text : string)
        (d parsed : pydict) :
  CheckIP_extract json_loads ip text = Returns d →
  d !! "_raw_parsed" = Some (PDict parsed) →
  d !! "ip" = Some (default (PStr ip) (parsed !! "ip"))
  ∧ (∀ k, k ∈ ["score"; "risk"; "is_blacklisted_external"; "operator";
               "hostname"; "asn"] → d !! k = parsed !! k)
  ∧ (∀ k, k ∉ ["ip"; "score"; "risk"; "is_blacklisted_external"; "operator";
               "hostname"; "asn"; "_raw_parsed"] → d !! k = None).
Proof.
  intros [(_ & ->) | [(block & Hb & _ & ->) | (block & p & _ & _ & ->)]]
    %CheckIP_extract_inv Hraw.
  - by rewrite fallback_scrape_other in Hraw.
  - by unfold parse_failed_record in Hraw; simplify_map_eq.
  - rewrite promote_fields_lookup in Hraw. simpl in Hraw.
    injection Hraw as ->. split_and!.
    + by rewrite promote_fields_lookup.
    + intros k Hk. rewrite promote_fields_lookup.
      repeat case_decide; try done; subst; set_unfold; naive_solver.
    + intros k Hk. rewrite promote_fields_lookup.
      repeat case_decide; try done; subst; exfalso; apply Hk;
        unfold promoted_keys in *; set_unfold; naive_solver.
Qed.

(** X6.  The error of a stored record is one of four kinds, each with its
    cause: no_json_block_found when the page was fetched and no block was
    extracted from it, json_parse_failed when a block was extracted,
    http_error followed by the message when the fetch raised a request
    exception, and exception followed by the message when the lookup
    raised anything else. *)
Theorem error_taxonomy
        (json_loads : string → option pyval) (ip : string)
        (user_agents_list : option (list string)) (rnd : nat) (net : network)
        (e : pyval) :
  result_or_error ip (CheckIP json_loads ip user_agents_list rnd net)
  !! "error" = Some e →
  (e = PStr "no_json_block_found"
   ∧ ∃ ua text, _choose_user_agent user_agents_list rnd = Returns ua
                ∧ _fetch_page ip ua net = Returns text
                ∧ _extract_json_block_from_text text = None)
  ∨ (e = PStr "json_parse_failed"
     ∧ ∃ ua text block, _choose_user_agent user_agents_list rnd = Returns ua
                        ∧ _fetch_page ip ua net = Returns text
                        ∧ _extract_json_block_from_text text = Some block)
  ∨ (∃ ua msg, _choose_user_agent user_agents_list rnd = Returns ua
               ∧ _fetch_page ip ua net = Raises (Exc RequestException msg)
               ∧ e = PStr ("http_error: " ++ msg))
  ∨ (∃ exc, CheckIP json_loads ip user_agents_list rnd net = Raises exc
            ∧ e = PStr ("exception: " ++ exc_str exc)).
Proof.
  destruct (_choose_user_agent_returns user_agents_list rnd) as [ua Hua].
  destruct (CheckIP json_loads ip user_agents_list rnd net) as [d|exc] eqn:Hc.
  2:{ simpl. intros He. simplify_map_eq. right. right. right. eauto. }
  simpl. intros He. unfold CheckIP in Hc. rewrite Hua in Hc. simpl in Hc.
  destruct (_fetch_page ip ua net) as [text|[cls msg]] eqn:Hfetch.
  - apply CheckIP_extract_inv in Hc
      as [(Hb & ->) | [(block & Hb & _ & ->) | (block & p & _ & _ & ->)]].
    + left. rewrite (fallback_scrape_error ip text) in He by eauto.
      simplify_map_eq. split; [done|]. exists ua, text. done.
    + right. left. unfold parse_failed_record in He. simplify_map_eq.
      split; [done|]. exists ua, text, block. done.
    + by rewrite promote_fields_error in He.
  - destruct cls; try done. injection Hc as <-. simplify_map_eq.
    right. right. left. eauto.
Qed.

(** X7.  The choice of a user agent never fails; the agent chosen is one
    of the list given when that list is not empty and one of the three
    default agents when it is empty or missing; and every agent of the
    list in use is the choice of some draw. *)
Theorem user_agent_choice
        (user_agents : option (list string)) (rnd : nat) :
  ∃ ua,
    _choose_user_agent user_agents rnd = Returns ua
    ∧ (∀ l, user_agents = Some l → l ≠ [] → ua ∈ l)
    ∧ (user_agents = None ∨ user_agents = Some [] →
       ua ∈ _DEFAULT_USER_AGENTS)
    ∧ ∀ ua', ua' ∈ resolved_user_agents user_agents →
             ∃ rnd', _choose_user_agent user_agents rnd' = Returns ua'.
Proof.
  assert (∀ x seq ua', ua' ∈ x :: seq →
            ∃ rnd', random_choice rnd' (x :: seq) = Returns ua') as Hany.
  { intros x seq ua' (i & Hi)%list_elem_of_lookup_1. exists i.
    unfold random_choice.
    rewrite Nat.mod_small by (by eapply lookup_lt_Some). by rewrite Hi. }
  unfold _choose_user_agent, resolved_user_agents.
  destruct user_agents as [[|x seq]|].
  - destruct (random_choice_returns rnd
               (hd EmptyString _DEFAULT_USER_AGENTS)
               (tl _DEFAULT_USER_AGENTS)) as (ua & H & Hin).
    exists ua. split_and!; [done | by intros l [= <-] | done | apply Hany].
  - destruct (random_choice_returns rnd x seq) as (ua & H & Hin).
    exists ua. split_and!; [done | by intros l [= <-] | | apply Hany].
    by intros [? | ?].
  - destruct (random_choice_returns rnd
               (hd EmptyString _DEFAULT_USER_AGENTS)
               (tl _DEFAULT_USER_AGENTS)) as (ua & H & Hin).
    exists ua. split_and!; [done | done | done | apply Hany].
Qed.

Lemma _choose_user_agent_resolved user_agents rnd ua :
  _choose_user_agent user_agents rnd = Returns ua →
  ua ∈ resolved_user_agents user_agents.
Proof.
  unfold _choose_user_agent, resolved_user_agents.
  destruct user_agents as [[|x seq]|].
  - destruct (random_choice_returns rnd
               (hd EmptyString _DEFAULT_USER_AGENTS)
               (tl _DEFAULT_USER_AGENTS)) as (ua' & H & Hin).
    unfold _DEFAULT_USER_AGENTS in *. simpl in *. congruence.
  - destruct (random_choice_returns rnd x seq) as (ua' & H & Hin). congruence.
  - destruct (random_choice_returns rnd
               (hd EmptyString _DEFAULT_USER_AGENTS)
               (tl _DEFAULT_USER_AGENTS)) as (ua' & H & Hin).
    unfold _DEFAULT_USER_AGENTS in *. simpl in *. congruence.
Qed.

(** X8.  A lookup reads the network at one place only: the GET of the
    lookup URL of its address, with the Accept header of the source, the
    timeout of 15 seconds and a user agent of the list in use.  Two
    networks that answer those requests alike give the same result. *)
Theorem lookup_reads_the_lookup_url_only
        (json_loads : string → option pyval) (ip : string)
        (user_agents_list : option (list string)) (rnd : nat)
        (net1 net2 : network) :
  (∀ ua, ua ∈ resolved_user_agents user_agents_list →
         net1 {| req_url := "https://scamalytics.com/ip/" ++ ip;
                 req_headers :=
                   [ ("User-Agent", ua);
                     ("Accept",
                      "text/html,application/xhtml+xml,application/xml;q=0.9,*/*;q=0.8") ];
                 req_timeout := 15 |}
         = net2 {| req_url := "https://scamalytics.com/ip/" ++ ip;
                   req_headers :=
                     [ ("User-Agent", ua);
                       ("Accept",
                        "text/html,application/xhtml+xml,application/xml;q=0.9,*/*;q=0.8") ];
                   req_timeout := 15 |}) →
  CheckIP json_loads ip user_agents_list rnd net1
  = CheckIP json_loads ip user_agents_list rnd net2.
Proof.
  intros Hnet. unfold CheckIP.
  destruct (_choose_user_agent user_agents_list rnd) as [ua|exc] eqn:Hua;
    [|done].
  simpl. unfold _fetch_page, _REQUEST_TIMEOUT.
  by rewrite (Hnet ua (_choose_user_agent_resolved _ _ _ Hua)).
Qed.

(* ===================================================================== *)
(** * More facts about the batch *)
(* ===================================================================== *)

(** What the dictionary of futures and the executor hold once the
    addresses [pre] have been submitted: the future [k] is the key of the
    [k]-th address and stands for the lookup of that address in the world
    of [k]. *)
Lemma submit_all_contents json_loads user_agents world ips pre st :
  List.length (ex_work st.2) = List.length pre →
  (∀ k, st.1 !! k = pre !! k) →
  (∀ k, ex_work st.2 !! k
        = (λ ip, process_ip json_loads ip user_agents (world k)) <$> pre !! k) →
  List.length
    (ex_work (fold_left (submit_ip json_loads user_agents world) ips st).2)
  = List.length (pre ++ ips)%list
  ∧ (∀ k, (fold_left (submit_ip json_loads user_agents world) ips st).1 !! k
          = (pre ++ ips)%list !! k)
  ∧ (∀ k, ex_work
            (fold_left (submit_ip json_loads user_agents world) ips st).2 !! k
          = (λ ip, process_ip json_loads ip user_agents (world k))
              <$> (pre ++ ips)%list !! k).
Proof.
  revert pre st. induction ips as [|ip ips IH]; intros pre st Hlen Hfut Hwork.
  - rewrite app_nil_r. done.
  - cbn [fold_left].
    replace (pre ++ ip :: ips)%list with ((pre ++ [ip]) ++ ips)%list
      by (by rewrite <- app_assoc).
    apply IH; destruct st as [futures ex]; unfold submit_ip; simpl in *.
    + rewrite !length_app. simpl. lia.
    + intros k. destruct (decide (k = List.length (ex_work ex))) as [->|Hne].
      * rewrite lookup_insert_eq, Hlen.
        rewrite lookup_app_r by lia. by rewrite Nat.sub_diag.
      * rewrite lookup_insert_ne by done. rewrite Hfut.
        destruct (decide (k < List.length pre)%nat).
        -- by rewrite lookup_app_l.
        -- rewrite lookup_ge_None_2 by lia.
           rewrite lookup_app_r by lia.
           destruct (k - List.length pre)%nat as [|j] eqn:Hj; [lia|done].
    + intros k. destruct (decide (k < List.length pre)%nat).
      * rewrite !lookup_app_l by lia. apply Hwork.
      * rewrite !lookup_app_r by lia. rewrite Hlen.
        destruct (k - List.length pre)%nat as [|j] eqn:Hj; [|done].
        simpl. by replace k with (List.length pre) by lia.
Qed.

Lemma collect_map futures ex order results (f : nat → pydict) :
  (∀ fut, fut ∈ order →
          ∃ ip o, futures !! fut = Some ip ∧ ex_work ex !! fut = Some o
                  ∧ f fut = result_or_error ip o) →
  collect futures ex order results = Returns (results ++ (f <$> order))%list.
Proof.
  revert results. induction order as [|fut order IH]; intros results Hin.
  - simpl. by rewrite app_nil_r.
  - destruct (Hin fut) as (ip & o & Hip & Ho & Hf); [by left|].
    cbn [collect]. rewrite Hip, Ho, IH.
    + rewrite <- Hf, <- app_assoc. done.
    + intros fut' Hfut'. apply Hin. by right.
Qed.

Lemma submit_all_lookup json_loads ex ips user_agents world :
  ex_work ex = [] →
  (∀ k, (submit_all json_loads ex ips user_agents world).1 !! k = ips !! k)
  ∧ (∀ k, ex_work (submit_all json_loads ex ips user_agents world).2 !! k
          = (λ ip, process_ip json_loads ip user_agents (world k))
              <$> ips !! k).
Proof.
  intros Hex.
  destruct (submit_all_contents json_loads user_agents world ips [] (∅, ex))
    as (_ & Hfut & Hwork); simpl; [by rewrite Hex | done | by rewrite Hex |].
  done.
Qed.

(** The futures of a batch are the ranks of its addresses. *)
Lemma completion_order_seq json_loads ex ips user_agents world order :
  ex_work ex = [] →
  completion_order (submit_all json_loads ex ips user_agents world).1 order
  ↔ order ≡ₚ seq 0 (List.length ips).
Proof.
  intros Hex.
  destruct (submit_all_lookup json_loads ex ips user_agents world Hex)
    as [Hfut _].
  unfold completion_order.
  assert ((map_to_list
             (submit_all json_loads ex ips user_agents world).1).*1
          ≡ₚ seq 0 (List.length ips)) as Hkeys.
  { apply NoDup_Permutation.
    - apply NoDup_fst_map_to_list.
    - apply NoDup_seq.
    - intros k. rewrite elem_of_seq. split.
      + intros ([k' ip] & -> & Hk)%list_elem_of_fmap.
        apply elem_of_map_to_list in Hk. simpl. rewrite Hfut in Hk.
        apply lookup_lt_Some in Hk. lia.
      + intros [_ Hk]. destruct (lookup_lt_is_Some_2 ips k) as [ip Hip]; [lia|].
        apply list_elem_of_fmap. exists (k, ip). split; [done|].
        apply elem_of_map_to_list. by rewrite Hfut. }
  by rewrite Hkeys.
Qed.

(** The batch, for a positive worker count and a completion order of its
    futures: the results are the records of the tasks in the order of
    completion. *)
Lemma Start_batch_records json_loads threads ips user_agents world order :
  (0 < threads)%Z →
  order ≡ₚ seq 0 (List.length ips) →
  Start_batch json_loads threads ips user_agents world order
  = Returns (task_record json_loads ips user_agents world <$> order).
Proof.
  intros Hthreads Hperm. unfold Start_batch, new_executor.
  destruct (threads <=? 0)%Z eqn:Hle; [lia|]. simpl.
  destruct (submit_all_lookup json_loads (Executor threads []) ips
              user_agents world) as [Hfut Hwork]; [done|].
  destruct (submit_all _ _ _ _ _) as [futures ex]. simpl in *.
  rewrite (collect_map futures ex order []
             (task_record json_loads ips user_agents world)); [done|].
  intros fut Hin. rewrite Hperm in Hin. apply elem_of_seq in Hin as [_ Hk].
  destruct (lookup_lt_is_Some_2 ips fut) as [ip Hip]; [lia|].
  exists ip, (process_ip json_loads ip user_agents (world fut)).
  unfold task_record. rewrite Hfut, Hwork, Hip. done.
Qed.

(** X9.  The results of a batch are the records of its tasks, in the
    order of completion: the record at place [i] is that of the address
    whose rank is the [i]-th future completed, looked up in the world of
    that task, or the error record of that address when the lookup
    raised.  Each rank below the number of addresses occurs once. *)
Theorem batch_results_in_completion_order
        (json_loads : string → option pyval) (threads : Z)
        (ips user_agents : list string) (world : nat → task_world)
        (order : list nat) :
  (0 < threads)%Z →
  completion_order
    (submit_all json_loads (Executor threads []) ips user_agents world).1
    order →
  order ≡ₚ seq 0 (List.length ips)
  ∧ ∃ results,
      Start_batch json_loads threads ips user_agents world order
      = Returns results
      ∧ ∀ i k, order !! i = Some k →
               ∃ ip, ips !! k = Some ip
                     ∧ results !! i
                       = Some (result_or_error ip
                                 (process_ip json_loads ip user_agents
                                             (world k))).
Proof.
  intros Hthreads Hperm%completion_order_seq; [|done].
  pose proof (Start_batch_records json_loads threads ips user_agents world
                order Hthreads Hperm) as Hres.
  split; [done|]. eexists. split; [done|].
  intros i k Hik.
  assert (k ∈ seq 0 (List.length ips)) as [_ Hk]%elem_of_seq.
  { rewrite <- Hperm. by eapply list_elem_of_lookup_2. }
  destruct (lookup_lt_is_Some_2 ips k) as [ip Hip]; [lia|].
  exists ip. split; [done|].
  rewrite list_lookup_fmap, Hik. simpl. unfold task_record. by rewrite Hip.
Qed.

(** X10.  The order of completion only permutes the results: two runs of
    the batch on the same addresses in the same worlds, whatever their
    completion orders, return the same records up to their order. *)
Theorem batch_results_up_to_order
        (json_loads : string → option pyval) (threads : Z)
        (ips user_agents : list string) (world : nat → task_world)
        (order1 order2 : list nat) :
  (0 < threads)%Z →
  completion_order
    (submit_all json_loads (Executor threads []) ips user_agents world).1
    order1 →
  completion_order
    (submit_all json_loads (Executor threads []) ips user_agents world).1
    order2 →
  ∃ results1 results2,
    Start_batch json_loads threads ips user_agents world order1
    = Returns results1
    ∧ Start_batch json_loads threads ips user_agents world order2
      = Returns results2
    ∧ results1 ≡ₚ results2.
Proof.
  intros Hthreads Hp1%completion_order_seq Hp2%completion_order_seq;
    [|done..].
  pose proof (Start_batch_records json_loads threads ips user_agents world
                order1 Hthreads Hp1) as Hr1.
  pose proof (Start_batch_records json_loads threads ips user_agents world
                order2 Hthreads Hp2) as Hr2.
  eexists _, _. split_and!; [done..|].
  apply fmap_Permutation. by rewrite Hp1, Hp2.
Qed.

(** X11.  A task touches its own record only: two batches whose worlds
    differ for the task of rank [j] alone return, under the same
    completion order, results that agree at every place but that of the
    future [j]. *)
Theorem one_task_changes_one_record
        (json_loads : string → option pyval) (threads : Z)
        (ips user_agents : list string) (world1 world2 : nat → task_world)
        (order : list nat) (j : nat) :
  (0 < threads)%Z →
  order ≡ₚ seq 0 (List.length ips) →
  (∀ k, k ≠ j → world1 k = world2 k) →
  ∃ results1 results2,
    Start_batch json_loads threads ips user_agents world1 order
    = Returns results1
    ∧ Start_batch json_loads threads ips user_agents world2 order
      = Returns results2
    ∧ List.length results1 = List.length results2
    ∧ ∀ i, order !! i ≠ Some j → results1 !! i = results2 !! i.
Proof.
  intros Hthreads Hperm Hworld.
  pose proof (Start_batch_records json_loads threads ips user_agents world1
                order Hthreads Hperm) as Hr1.
  pose proof (Start_batch_records json_loads threads ips user_agents world2
                order Hthreads Hperm) as Hr2.
  eexists _, _. split_and!; [done..| |].
  - by rewrite !length_fmap.
  - intros i Hi. rewrite !list_lookup_fmap.
    destruct (order !! i) as [k|] eqn:Hk; [|done]. simpl. f_equal.
    unfold task_record. rewrite (Hworld k); [done | congruence].
Qed.

(* ===================================================================== *)
(** * Facts about [strip] and the lines of a file *)
(* ===================================================================== *)

Lemma all_chars_app p s t :
  all_chars p (s ++ t) = all_chars p s && all_chars p t.
Proof.
  induction s as [|a s IH]; [done|]. rewrite app_cons_str. simpl.
  rewrite IH. by destruct (p a).
Qed.

Lemma all_chars_span_drop p s :
  all_chars p (PyStr.drop (PyStr.span p s) s) = all_chars p s.
Proof.
  induction s as [|a s IH]; [done|]. simpl.
  destruct (p a) eqn:Hp; simpl; [done | by rewrite Hp].
Qed.

Lemma span_drop_head p s c r :
  PyStr.drop (PyStr.span p s) s = String c r → p c = false.
Proof.
  induction s as [|a s IH]; [done|]. simpl.
  destruct (p a) eqn:Hp; simpl; [done|]. by intros [= <- _].
Qed.

Lemma count_char_drop c n s :
  (count_char c (PyStr.drop n s) ≤ count_char c s)%nat.
Proof.
  revert s. induction n as [|n IH]; intros [|a s]; simpl; try lia.
  specialize (IH s). lia.
Qed.

Lemma drop_app_le n s t :
  (n ≤ String.length s)%nat → PyStr.drop n (s ++ t) = PyStr.drop n s ++ t.
Proof.
  revert s. induction n as [|n IH]; intros [|a s] Hn; simpl in *; try done;
    try lia.
  apply IH. lia.
Qed.

Lemma rstrip_nil_iff s :
  rstrip s = EmptyString ↔ all_chars PyStr.is_space s = true.
Proof.
  induction s as [|a s IH]; [done|]. simpl.
  destruct (rstrip s) as [|b r].
  - destruct (PyStr.is_space a); simpl; [by rewrite <- IH | done].
  - split; [done|]. intros [_ H]%andb_true_iff. by apply IH in H.
Qed.

Lemma rstrip_cons a s :
  rstrip (String a s)
  = match rstrip s with
    | EmptyString =>
        if PyStr.is_space a then EmptyString else String a EmptyString
    | String _ _ as r => String a r
    end.
Proof. reflexivity. Qed.

Lemma rstrip_idem s : rstrip (rstrip s) = rstrip s.
Proof.
  induction s as [|a s IH]; [done|]. simpl.
  destruct (rstrip s) as [|b r] eqn:Hr.
  - destruct (PyStr.is_space a) eqn:Ha; simpl; [done | by rewrite Ha].
  - by rewrite rstrip_cons, IH.
Qed.

Lemma rstrip_head a s c r :
  rstrip (String a s) = String c r → c = a.
Proof.
  simpl. destruct (rstrip s); [destruct (PyStr.is_space a) |];
    by intros [= <- _].
Qed.

Lemma rstrip_last s p c :
  rstrip s = p ++ String c EmptyString → PyStr.is_space c = false.
Proof.
  revert p. induction s as [|a s IH]; intros p.
  - by destruct p.
  - simpl. destruct (rstrip s) as [|b r] eqn:Hr.
    + destruct (PyStr.is_space a) eqn:Ha; [by destruct p|].
      destruct p as [|a' [|? ?]]; [|done..]. by intros [= <-].
    + destruct p as [|a' p].
      * by intros [= _ ?].
      * rewrite app_cons_str. intros [= _ Hp]. by eapply IH.
Qed.

Lemma rstrip_snoc_space s c :
  PyStr.is_space c = true → rstrip (s ++ String c EmptyString) = rstrip s.
Proof.
  intros Hc. induction s as [|a s IH].
  - rewrite app_nil_str. simpl. by rewrite Hc.
  - by rewrite app_cons_str, !rstrip_cons, IH.
Qed.

Lemma count_char_rstrip c s : (count_char c (rstrip s) ≤ count_char c s)%nat.
Proof.
  induction s as [|a s IH]; [done|]. rewrite rstrip_cons.
  destruct (rstrip s) as [|b r].
  - destruct (PyStr.is_space a); simpl in *; lia.
  - cbn [count_char] in *. lia.
Qed.

Lemma strip_nil_iff s :
  strip s = EmptyString ↔ all_chars PyStr.is_space s = true.
Proof.
  unfold strip, lstrip. by rewrite rstrip_nil_iff, all_chars_span_drop.
Qed.

Lemma strip_head s c r : strip s = String c r → PyStr.is_space c = false.
Proof.
  unfold strip, lstrip.
  destruct (PyStr.drop (PyStr.span PyStr.is_space s) s) as [|a t] eqn:Hd;
    [done|].
  intros ->%rstrip_head. by eapply span_drop_head.
Qed.

Lemma lstrip_nonspace c r :
  PyStr.is_space c = false → lstrip (String c r) = String c r.
Proof. intros Hc. unfold lstrip. simpl. by rewrite Hc. Qed.

Lemma strip_idem s : strip (strip s) = strip s.
Proof.
  destruct (strip s) as [|c r] eqn:Hs; [done|].
  pose proof (strip_head _ _ _ Hs) as Hc.
  unfold strip. rewrite (lstrip_nonspace c r Hc). rewrite <- Hs.
  unfold strip. apply rstrip_idem.
Qed.

(** The lines of a file hold no line feed but at their end. *)
Lemma file_lines_body content line :
  line ∈ file_lines content →
  ∃ body, count_char PyStr.newline body = 0%nat
          ∧ (line = body ∨ line = body ++ String PyStr.newline EmptyString).
Proof.
  revert line. induction content as [|c rest IH]; intros line; simpl.
  - by intros ?%elem_of_nil.
  - destruct (Ascii.eqb c PyStr.newline) eqn:Hc.
    + apply Ascii.eqb_eq in Hc as ->.
      intros [->|Hin]%elem_of_cons; [|by apply IH].
      exists EmptyString. split; [done | by right].
    + destruct (file_lines rest) as [|l ls] eqn:Hl.
      * intros ->%list_elem_of_singleton. exists (String c EmptyString).
        split; [by simpl; rewrite Hc | by left].
      * intros [->|Hin]%elem_of_cons.
        -- destruct (IH l) as (body & Hb & Hline); [by left|].
           exists (String c body). split; [by simpl; rewrite Hc, Hb|].
           destruct Hline as [-> | ->]; [by left | by right].
        -- apply IH. by right.
Qed.

Lemma file_lines_all_chars p content line :
  all_chars p content = true → line ∈ file_lines content →
  all_chars p line = true.
Proof.
  revert line. induction content as [|c rest IH]; intros line; simpl.
  - by intros _ ?%elem_of_nil.
  - intros [Hc Hrest]%andb_true_iff.
    destruct (Ascii.eqb c PyStr.newline).
    + intros [->|Hin]%elem_of_cons; [by simpl; rewrite Hc | by apply IH].
    + destruct (file_lines rest) as [|l ls] eqn:Hl.
      * intros ->%list_elem_of_singleton. by simpl; rewrite Hc.
      * intros [->|Hin]%elem_of_cons.
        -- simpl. rewrite Hc. apply IH; [done | by left].
        -- apply IH; [done | by right].
Qed.

Lemma file_lines_some_char p content :
  all_chars p content = false →
  ∃ line, line ∈ file_lines content ∧ all_chars p line = false.
Proof.
  induction content as [|c rest IH]; [done|]. simpl.
  destruct (p c) eqn:Hp; simpl.
  - intros (line & Hin & Hline)%IH.
    destruct (Ascii.eqb c PyStr.newline).
    + exists line. split; [by right | done].
    + destruct (file_lines rest) as [|l ls]; [by apply elem_of_nil in Hin|].
      apply elem_of_cons in Hin as [->|Hin].
      * exists (String c l). split; [by left | by simpl; rewrite Hp, Hline].
      * exists line. split; [by right | done].
  - intros _. destruct (Ascii.eqb c PyStr.newline).
    + exists (String c EmptyString). split; [by left | by simpl; rewrite Hp].
    + destruct (file_lines rest) as [|l ls].
      * exists (String c EmptyString).
        split; [by left | by simpl; rewrite Hp].
      * exists (String c l). split; [by left | by simpl; rewrite Hp].
Qed.

Lemma strip_line_no_newline body :
  count_char PyStr.newline body = 0%nat →
  count_char PyStr.newline (strip body) = 0%nat
  ∧ count_char PyStr.newline
      (strip (body ++ String PyStr.newline EmptyString)) = 0%nat.
Proof.
  intros Hb. split.
  - unfold strip, lstrip.
    pose proof (count_char_rstrip PyStr.newline
                  (PyStr.drop (PyStr.span PyStr.is_space body) body)).
    pose proof (count_char_drop PyStr.newline
                  (PyStr.span PyStr.is_space body) body). lia.
  - unfold strip, lstrip.
    set (line := body ++ String PyStr.newline EmptyString).
    destruct (decide (PyStr.span PyStr.is_space line ≤ String.length body)%nat)
      as [Hle|Hgt].
    + subst line. rewrite drop_app_le by done.
      rewrite rstrip_snoc_space by done.
      pose proof (count_char_rstrip PyStr.newline
                    (PyStr.drop
                       (PyStr.span PyStr.is_space
                          (body ++ String PyStr.newline EmptyString)) body)).
      pose proof (count_char_drop PyStr.newline
                    (PyStr.span PyStr.is_space
                       (body ++ String PyStr.newline EmptyString)) body).
      lia.
    + pose proof (PyStrFacts.drop_length (PyStr.span PyStr.is_space line) line)
        as Hd.
      assert (String.length line = S (String.length body)) as Hl.
      { subst line. rewrite length_app_str. simpl. lia. }
      destruct (PyStr.drop (PyStr.span PyStr.is_space line) line); [done|].
      simpl in Hd. lia.
Qed.

(** X12.  Every address read from the input file is non-empty, begins and
    ends with a character that is not white space, holds no line feed,
    and is left as it is by a further [strip]. *)
Theorem read_lines_strip_clean (content ip : string) :
  ip ∈ read_lines_strip content →
  ip ≠ EmptyString
  ∧ (∀ c r, ip = String c r → PyStr.is_space c = false)
  ∧ (∀ p c, ip = p ++ String c EmptyString → PyStr.is_space c = false)
  ∧ count_char PyStr.newline ip = 0%nat
  ∧ strip ip = ip.
Proof.
  unfold read_lines_strip.
  intros (line & -> & [Hne Hline]%list_elem_of_filter)%list_elem_of_fmap.
  split_and!.
  - done.
  - intros c r. apply strip_head.
  - intros p c. unfold strip. apply rstrip_last.
  - destruct (file_lines_body _ _ Hline) as (body & Hb & [-> | ->]);
      by apply strip_line_no_newline.
  - apply strip_idem.
Qed.

(** X13.  The input file yields no address exactly when it holds nothing
    but white space (an empty file, blank lines): the batch then has
    nothing to look up. *)
Theorem read_lines_strip_empty (content : string) :
  read_lines_strip content = [] ↔ all_chars PyStr.is_space content = true.
Proof.
  unfold read_lines_strip. split.
  - intros Hnil. destruct (all_chars PyStr.is_space content) eqn:Hall; [done|].
    destruct (file_lines_some_char _ _ Hall) as (line & Hin & Hline).
    assert (strip line ∈ @nil string) as Habs; [|by apply elem_of_nil in Habs].
    rewrite <- Hnil. apply list_elem_of_fmap. exists line. split; [done|].
    apply list_elem_of_filter. split; [|done].
    intros Hs%strip_nil_iff. congruence.
  - intros Hall.
    destruct (filter (λ line, strip line ≠ EmptyString) (file_lines content))
      as [|line ls] eqn:Hf; [done|].
    assert (line ∈ filter (λ line, strip line ≠ EmptyString)
                          (file_lines content)) as Hin
      by (rewrite Hf; by left).
    apply list_elem_of_filter in Hin as [Hne Hin]. exfalso. apply Hne.
    apply strip_nil_iff. by eapply file_lines_all_chars.
Qed.

(* ===================================================================== *)
(** * Facts about the report *)
(* ===================================================================== *)

(** The four shapes of the record stored for a task. *)
Lemma stored_record_cases json_loads ip user_agents_list rnd net :
  (∃ msg, result_or_error ip (CheckIP json_loads ip user_agents_list rnd net)
          = {[ "ip" := PStr ip; "error" := PStr msg ]}
          ∧ msg ≠ EmptyString)
  ∨ (∃ text, result_or_error ip
               (CheckIP json_loads ip user_agents_list rnd net)
             = fallback_scrape ip text)
  ∨ (∃ block, result_or_error ip
                (CheckIP json_loads ip user_agents_list rnd net)
              = parse_failed_record ip block
              ∧ block ≠ EmptyString)
  ∨ (∃ parsed, result_or_error ip
                 (CheckIP json_loads ip user_agents_list rnd net)
               = promote_fields ip parsed).
Proof.
  unfold CheckIP.
  destruct (_choose_user_agent_returns user_agents_list rnd) as [ua ->].
  simpl. destruct (_fetch_page ip ua net) as [text|[cls msg]].
  - destruct (CheckIP_extract json_loads ip text) as [d|exc] eqn:Hc.
    + apply CheckIP_extract_inv in Hc
        as [(Hb & ->) | [(block & Hb & _ & ->) | (block & p & _ & _ & ->)]];
        simpl; [by eauto | | by eauto 6].
      right. right. left. exists block. split; [done|].
      by destruct (extract_head _ _ Hb) as [r ->].
    + left. simpl. exists ("exception: " ++ exc_str exc). done.
  - destruct cls; simpl; left;
      first [by exists ("http_error: " ++ msg)
            | by exists ("exception: " ++ msg)].
Qed.

Lemma report_row_plain json_dumps py_str (r : pydict) k :
  k ≠ "raw_json" →
  report_row json_dumps py_str r !! k
  = if decide (k = "ip") then Some (default PNone (r !! "ip"))
    else if decide (k = "score")
    then Some (default (PStr EmptyString) (r !! "score"))
    else if decide (k = "risk")
    then Some (default (PStr EmptyString) (r !! "risk"))
    else if decide (k = "error")
    then Some (default (PStr EmptyString) (r !! "error"))
    else None.
Proof.
  intros Hk. unfold report_row.
  destruct (r !! "_raw_parsed") as [v|]; [destruct (json_dumps v)|];
    (destruct (r !! "raw") as [w|]; [destruct (negb _)|]);
    repeat case_decide; by simplify_map_eq.
Qed.

Lemma report_row_raw_json json_dumps py_str (r : pydict) :
  report_row json_dumps py_str r !! "raw_json"
  = Some
      match r !! "_raw_parsed", r !! "raw" with
      | Some v, raw =>
          let s := match json_dumps v with
                   | Returns s => s
                   | Raises _ => py_str v
                   end in
          match raw with
          | Some w => if negb (truthy (PStr s)) then w else PStr s
          | None => PStr s
          end
      | None, Some w => w
      | None, None => PStr EmptyString
      end.
Proof.
  unfold report_row.
  destruct (r !! "_raw_parsed") as [v|]; [destruct (json_dumps v)|];
    (destruct (r !! "raw") as [w|]);
    simplify_map_eq; try done; by destruct (negb _); simplify_map_eq.
Qed.

Lemma report_row_dom json_dumps py_str (r : pydict) :
  dom (report_row json_dumps py_str r)
  = ({[ "ip"; "score"; "risk"; "error"; "raw_json" ]} : gset string).
Proof.
  apply set_eq. intros k. rewrite elem_of_dom.
  destruct (decide (k = "raw_json")) as [->|Hk].
  - rewrite report_row_raw_json. split; [set_solver | eauto].
  - rewrite report_row_plain by done.
    repeat case_decide; subst; split; eauto; try set_solver.
Qed.

(** A stored record never has a raw snippet and a parsed payload at once,
    always has an ip, and has no empty error. *)
Lemma stored_record_fields json_loads ip user_agents_list rnd net :
  let r := result_or_error ip
             (CheckIP json_loads ip user_agents_list rnd net) in
  (r !! "_raw_parsed" = None ∨ r !! "raw" = None)
  ∧ is_Some (r !! "ip")
  ∧ r !! "error" ≠ Some (PStr EmptyString).
Proof.
  intros r. subst r.
  destruct (stored_record_cases json_loads ip user_agents_list rnd net)
    as [(msg & -> & Hmsg) | [(text & ->) | [(block & -> & Hb) | (p & ->)]]].
  - split_and!; [left | | ]; simplify_map_eq; [done | eauto | congruence].
  - split_and!.
    + left. by apply fallback_scrape_other.
    + destruct (matched (PyStr.search (Re.field "ip") text)
                || matched (PyStr.search (Re.field "score") text)
                || matched (PyStr.search (Re.field "risk") text)) eqn:Hm.
      * rewrite (fallback_scrape_found ip text Hm "ip"). simpl. eauto.
      * apply orb_false_iff in Hm as [[H1 H2]%orb_false_iff H3].
        rewrite fallback_scrape_not_found.
        -- simplify_map_eq. eauto.
        -- by destruct (PyStr.search (Re.field "ip") text).
        -- by destruct (PyStr.search (Re.field "score") text).
        -- by destruct (PyStr.search (Re.field "risk") text).
    + intros He. rewrite (fallback_scrape_error ip text) in He by eauto.
      by simplify_map_eq.
  - unfold parse_failed_record.
    split_and!; [left | | ]; simplify_map_eq; [done | eauto | done].
  - split_and!.
    + right. by rewrite promote_fields_lookup.
    + rewrite promote_fields_ip. eauto.
    + by rewrite promote_fields_error.
Qed.

(** X14.  The row written for the record of a task has the five columns
    of the report and no other.  Its ip column is the ip of the record;
    score, risk and error are those of the record, empty when absent, and
    the error column is empty exactly when the record has no error.  The
    raw_json column is the serialised payload (its [str] when the
    serialisation raises) when the record has one, else the raw snippet
    when it has one, else empty; a record never has both. *)
Theorem report_row_of_a_stored_record
        (json_dumps : pyval → outcome string) (py_str : pyval → string)
        (json_loads : string → option pyval) (ip : string)
        (user_agents_list : option (list string)) (rnd : nat)
        (net : network) :
  let r := result_or_error ip
             (CheckIP json_loads ip user_agents_list rnd net) in
  let row := report_row json_dumps py_str r in
  dom row = ({[ "ip"; "score"; "risk"; "error"; "raw_json" ]} : gset string)
  ∧ is_Some (r !! "ip") ∧ row !! "ip" = r !! "ip"
  ∧ row !! "score" = Some (default (PStr EmptyString) (r !! "score"))
  ∧ row !! "risk" = Some (default (PStr EmptyString) (r !! "risk"))
  ∧ row !! "error" = Some (default (PStr EmptyString) (r !! "error"))
  ∧ (row !! "error" = Some (PStr EmptyString) ↔ r !! "error" = None)
  ∧ (r !! "_raw_parsed" = None ∨ r !! "raw" = None)
  ∧ row !! "raw_json"
    = Some
        match r !! "_raw_parsed", r !! "raw" with
        | Some v, _ =>
            PStr match json_dumps v with
                 | Returns s => s
                 | Raises _ => py_str v
                 end
        | None, Some w => w
        | None, None => PStr EmptyString
        end.
Proof.
  intros r row.
  destruct (stored_record_fields json_loads ip user_agents_list rnd net)
    as (Hexcl & [v Hip] & Herr).
  fold r in Hexcl, Hip, Herr. subst row.
  split_and!.
  - apply report_row_dom.
  - eauto.
  - rewrite report_row_plain by done. simpl. by rewrite Hip.
  - by rewrite report_row_plain.
  - by rewrite report_row_plain.
  - by rewrite report_row_plain.
  - rewrite report_row_plain by done. simpl.
    destruct (r !! "error") as [e|]; simpl; [|done].
    split; [congruence | done].
  - done.
  - rewrite report_row_raw_json.
    destruct Hexcl as [-> | ->]; [done|].
    by destruct (r !! "_raw_parsed").
Qed.

(* ===================================================================== *)
(** * Facts about the field searches of the degraded path *)
(* ===================================================================== *)

Lemma app_assoc_str s t u : (s ++ t) ++ u = s ++ (t ++ u).
Proof.
  induction s as [|c s IH]; [done|]. rewrite !app_cons_str. by rewrite IH.
Qed.

Lemma prefix_split p s :
  String.prefix p s = true → s = p ++ PyStr.drop (String.length p) s.
Proof.
  revert s. induction p as [|a p IH]; intros s.
  - intros _. by rewrite app_nil_str, PyStrFacts.drop_0.
  - destruct s as [|b s]; [done|]. simpl.
    destruct (ascii_dec a b) as [->|]; [|done].
    intros H%IH. rewrite app_cons_str. by rewrite <- H.
Qed.

Lemma all_chars_take_span p s :
  all_chars p (PyStr.take (PyStr.span p s) s) = true.
Proof.
  induction s as [|a s IH]; [done|]. simpl.
  destruct (p a) eqn:Hp; [|done].
  change (PyStr.take (S ?n) (String a s)) with (String a (PyStr.take n s)).
  simpl. by rewrite Hp.
Qed.

Lemma all_chars_not_count c s :
  all_chars (λ a, negb (Ascii.eqb a c)) s = true → count_char c s = 0%nat.
Proof.
  induction s as [|a s IH]; [done|]. simpl.
  destruct (Ascii.eqb a c); simpl; [done | exact IH].
Qed.

(** A match of a field pattern at the head of [s]: the quoted key, white
    space, a colon, white space, and the group between double quotes. *)
Lemma field_sound key s g :
  Re.field key s = Some g →
  ∃ ws1 ws2 post,
    s = String PyStr.dquote
          (key ++ String PyStr.dquote
             (ws1 ++ String ":"
                (ws2 ++ String PyStr.dquote
                   (g ++ String PyStr.dquote post))))
    ∧ all_chars PyStr.is_space ws1 = true
    ∧ all_chars PyStr.is_space ws2 = true
    ∧ count_char PyStr.dquote g = 0%nat.
Proof.
  unfold Re.field.
  set (quoted := String PyStr.dquote (key ++ String PyStr.dquote EmptyString)).
  destruct (String.prefix quoted s) eqn:Hp; [|done].
  apply prefix_split in Hp.
  set (r1 := PyStr.drop (String.length quoted) s) in *.
  destruct (PyStr.drop (PyStr.span PyStr.is_space r1) r1)
    as [|c1 r2] eqn:H1; [done|].
  destruct (Ascii.eqb c1 ":") eqn:Hc1;
    [apply Ascii.eqb_eq in Hc1 as ->
    |by destruct c1 as [[] [] [] [] [] [] [] []]].
  destruct (PyStr.drop (PyStr.span PyStr.is_space r2) r2)
    as [|c2 r3] eqn:H2; [done|].
  destruct (Ascii.eqb c2 PyStr.dquote) eqn:Hc2; [|done].
  apply Ascii.eqb_eq in Hc2 as ->.
  set (notq := λ c : ascii, negb (Ascii.eqb c PyStr.dquote)).
  destruct (PyStr.span notq r3) as [|n] eqn:Hn; [done|].
  destruct (PyStr.drop (S n) r3) as [|c3 post] eqn:H3; [done|].
  intros [= <-].
  assert (c3 = PyStr.dquote) as ->.
  { rewrite <- Hn in H3. apply span_drop_head in H3.
    unfold notq in H3. apply negb_false_iff, Ascii.eqb_eq in H3. done. }
  exists (PyStr.take (PyStr.span PyStr.is_space r1) r1),
         (PyStr.take (PyStr.span PyStr.is_space r2) r2), post.
  split_and!.
  - rewrite Hp at 1. unfold quoted. rewrite app_cons_str.
    f_equal. rewrite app_assoc_str. f_equal.
    rewrite app_cons_str, app_nil_str. f_equal.
    rewrite (take_drop_str (PyStr.span PyStr.is_space r1) r1) at 1.
    f_equal. rewrite H1. f_equal.
    rewrite (take_drop_str (PyStr.span PyStr.is_space r2) r2) at 1.
    f_equal. rewrite H2. f_equal.
    rewrite (take_drop_str (S n) r3) at 1. by rewrite H3.
  - apply all_chars_take_span.
  - apply all_chars_take_span.
  - apply all_chars_not_count. rewrite <- Hn. apply all_chars_take_span.
Qed.

(** [re.search] gives the match at the leftmost position that has one. *)
Lemma search_leftmost {A} (m : string → option A) s g :
  PyStr.search m s = Some g →
  ∃ n, (n ≤ String.length s)%nat
       ∧ m (PyStr.drop n s) = Some g
       ∧ ∀ k, (k < n)%nat → m (PyStr.drop k s) = None.
Proof.
  induction s as [|c s IH]; simpl.
  - destruct (m EmptyString) eqn:Hm; [|done]. intros [= <-].
    exists 0%nat. split_and!; [done | done | lia].
  - destruct (m (String c s)) eqn:Hm.
    + intros [= <-]. exists 0%nat. split_and!; [lia | done | lia].
    + intros (n & Hn & Hg & Hk)%IH. exists (S n).
      split_and!; [lia | done |].
      intros [|k] Hlt; [done|]. apply Hk. lia.
Qed.

Lemma field_search_sound key text g :
  PyStr.search (Re.field key) text = Some g →
  ∃ pre ws1 ws2 post,
    text = pre ++ String PyStr.dquote
                    (key ++ String PyStr.dquote
                       (ws1 ++ String ":"
                          (ws2 ++ String PyStr.dquote
                             (g ++ String PyStr.dquote post))))
    ∧ all_chars PyStr.is_space ws1 = true
    ∧ all_chars PyStr.is_space ws2 = true
    ∧ g ≠ EmptyString
    ∧ count_char PyStr.dquote g = 0%nat
    ∧ ∀ k, (k < String.length pre)%nat →
           Re.field key (PyStr.drop k text) = None.
Proof.
  intros Hs. pose proof (search_field_nonempty _ _ _ Hs) as Hne.
  apply search_leftmost in Hs as (n & Hn & Hg & Hk).
  apply field_sound in Hg as (ws1 & ws2 & post & Hd & H1 & H2 & Hq).
  exists (PyStr.take n text), ws1, ws2, post.
  split_and!; try done.
  - rewrite <- Hd. apply take_drop_str.
  - intros k Hlt. apply Hk. pose proof (take_length_le n text). lia.
Qed.

(** X15.  What the degraded path returns is read off the page: a score
    or a risk of the result stands in the page between double quotes,
    after the quoted key, a colon and optional white space; it is not
    empty, holds no double quote, and is the leftmost such value.  The ip
    of the result is such a value too, or the queried ip when the page
    has none. *)
Theorem scraped_values_stand_in_the_page
        (json_loads : string → option pyval) (ip text key : string)
        (d : pydict) (v : pyval) :
  _extract_json_block_from_text text = None →
  CheckIP_extract json_loads ip text = Returns d →
  key ∈ ["ip"; "score"; "risk"] →
  d !! key = Some v →
  (key = "ip" ∧ v = PStr ip
   ∧ PyStr.search (Re.field "ip") text = None)
  ∨ ∃ g pre ws1 ws2 post,
      v = PStr g
      ∧ text = pre ++ String PyStr.dquote
                      (key ++ String PyStr.dquote
                         (ws1 ++ String ":"
                            (ws2 ++ String PyStr.dquote
                               (g ++ String PyStr.dquote post))))
      ∧ all_chars PyStr.is_space ws1 = true
      ∧ all_chars PyStr.is_space ws2 = true
      ∧ g ≠ EmptyString
      ∧ count_char PyStr.dquote g = 0%nat
      ∧ ∀ k, (k < String.length pre)%nat →
             Re.field key (PyStr.drop k text) = None.
Proof.
  intros Hnone Hc Hkey Hv.
  rewrite CheckIP_extract_fallback in Hc by by apply takes_fallback_None.
  injection Hc as <-.
  destruct (matched (PyStr.search (Re.field "ip") text)
            || matched (PyStr.search (Re.field "score") text)
            || matched (PyStr.search (Re.field "risk") text)) eqn:Hm.
  - rewrite (fallback_scrape_found ip text Hm key) in Hv.
    assert (∀ g, PyStr.search (Re.field key) text = Some g → v = PStr g →
                 ∃ g pre ws1 ws2 post,
                   v = PStr g
                   ∧ text = pre ++ String PyStr.dquote
                                   (key ++ String PyStr.dquote
                                      (ws1 ++ String ":"
                                         (ws2 ++ String PyStr.dquote
                                            (g ++ String PyStr.dquote post))))
                   ∧ all_chars PyStr.is_space ws1 = true
                   ∧ all_chars PyStr.is_space ws2 = true
                   ∧ g ≠ EmptyString
                   ∧ count_char PyStr.dquote g = 0%nat
                   ∧ ∀ k, (k < String.length pre)%nat →
                          Re.field key (PyStr.drop k text) = None) as Hfound.
    { intros g Hg ->.
      destruct (field_search_sound _ _ _ Hg)
        as (pre & ws1 & ws2 & post & ?). exists g, pre, ws1, ws2, post.
      by split. }
    repeat case_decide; subst.
    + destruct (PyStr.search (Re.field "ip") text) as [g|] eqn:Hg;
        simpl in Hv; injection Hv as <-.
      * right. by apply (Hfound g).
      * left. done.
    + destruct (PyStr.search (Re.field "score") text) as [g|] eqn:Hg;
        [|done]. simpl in Hv. injection Hv as <-. right. by apply (Hfound g).
    + destruct (PyStr.search (Re.field "risk") text) as [g|] eqn:Hg;
        [|done]. simpl in Hv. injection Hv as <-. right. by apply (Hfound g).
    + done.
  - apply orb_false_iff in Hm as [[H1 H2]%orb_false_iff H3].
    rewrite fallback_scrape_not_found in Hv.
    + assert (key = "ip") as ->.
      { set_unfold in Hkey. destruct Hkey as [->|[->|[->|[]]]];
          [done | by simplify_map_eq..]. }
      simplify_map_eq. left. split_and!; [done..|].
      by destruct (PyStr.search (Re.field "ip") text).
    + by destruct (PyStr.search (Re.field "ip") text).
    + by destruct (PyStr.search (Re.field "score") text).
    + by destruct (PyStr.search (Re.field "risk") text).
Qed.

(* ===================================================================== *)
(** * Facts about the report of a batch *)
(* ===================================================================== *)

(** A stored record with an error names the queried address and has no
    score, no risk and no payload. *)
Lemma stored_error_record json_loads ip user_agents_list rnd net :
  let r := result_or_error ip
             (CheckIP json_loads ip user_agents_list rnd net) in
  is_Some (r !! "error") →
  r !! "ip" = Some (PStr ip) ∧ r !! "score" = None ∧ r !! "risk" = None
  ∧ r !! "_raw_parsed" = None.
Proof.
  intros r. subst r.
  destruct (stored_record_cases json_loads ip user_agents_list rnd net)
    as [(msg & -> & Hmsg) | [(text & ->) | [(block & -> & Hb) | (p & ->)]]].
  - intros _. by simplify_map_eq.
  - intros He. rewrite (fallback_scrape_error ip text He).
    by simplify_map_eq.
  - intros _. unfold parse_failed_record. by simplify_map_eq.
  - rewrite promote_fields_error. by intros [? ?].
Qed.

(** X16.  The report of a batch has one row for each address of the
    input, in the order of completion, each with the five columns of the
    report.  A row whose error column is not empty is the row of a failed
    lookup: its ip column is the address that was queried, and its score
    and risk columns are empty. *)
Theorem report_rows_of_a_batch
        (json_dumps : pyval → outcome string) (py_str : pyval → string)
        (json_loads : string → option pyval) (threads : Z)
        (ips user_agents : list string) (world : nat → task_world)
        (order : list nat) :
  (0 < threads)%Z →
  completion_order
    (submit_all json_loads (Executor threads []) ips user_agents world).1
    order →
  ∃ results,
    Start_batch json_loads threads ips user_agents world order
    = Returns results
    ∧ List.length (report_rows json_dumps py_str results) = List.length ips
    ∧ ∀ i k, order !! i = Some k →
             ∃ ip row,
               ips !! k = Some ip
               ∧ report_rows json_dumps py_str results !! i = Some row
               ∧ dom row
                 = ({[ "ip"; "score"; "risk"; "error"; "raw_json" ]}
                    : gset string)
               ∧ (row !! "error" ≠ Some (PStr EmptyString) →
                  row !! "ip" = Some (PStr ip)
                  ∧ row !! "score" = Some (PStr EmptyString)
                  ∧ row !! "risk" = Some (PStr EmptyString)).
Proof.
  intros Hthreads Hperm%completion_order_seq; [|done].
  rewrite (Start_batch_records json_loads threads ips user_agents world
             order Hthreads Hperm).
  eexists. split; [done|]. split.
  - unfold report_rows. rewrite !length_fmap, Hperm. apply length_seq.
  - intros i k Hik.
    assert (k ∈ seq 0 (List.length ips)) as [_ Hk]%elem_of_seq.
    { rewrite <- Hperm. by eapply list_elem_of_lookup_2. }
    destruct (lookup_lt_is_Some_2 ips k) as [ip Hip]; [lia|].
    exists ip. eexists. split; [done|].
    unfold report_rows. rewrite !list_lookup_fmap, Hik. simpl.
    split; [done|]. split; [apply report_row_dom|].
    unfold task_record. rewrite Hip. unfold process_ip.
    rewrite !report_row_plain by done. simpl. intros Herr.
    destruct (stored_error_record json_loads ip (Some user_agents)
                (tw_rnd (world k)) (tw_net (world k)))
      as (H1 & H2 & H3 & _).
    { destruct (_ !! "error") as [e|]; [eauto | done]. }
    by rewrite H1, H2, H3.
Qed.

(* ===================================================================== *)
(** * The further properties at sample inputs *)
(* ===================================================================== *)

Lemma raw_block_balanced_witness :
  let b := q "{'a':{'b':'c'},}" in
  raw_block nested_page = Some b
  ∧ (∃ r, b = String "{" r)
  ∧ (∃ p, b = p ++ "}")
  ∧ balance b = 0%Z
  ∧ ∀ n, (0 < n < String.length b)%nat → (0 < balance (PyStr.take n b))%Z.
Proof.
  intros b.
  assert (raw_block nested_page = Some b) as Hb by (vm_compute; reflexivity).
  split; [done|]. by apply (raw_block_balanced nested_page b).
Defined.

Lemma raw_block_position_witness :
  let b := q "{'a':{'b':'c'},}" in
  raw_block nested_page = Some b
  ∧ ∃ start post,
      first_brace nested_page = Some start
      ∧ (marker_pos nested_page ≤ start)%nat
      ∧ nested_page = PyStr.take start nested_page ++ b ++ post
      ∧ count_char "{" (PyStr.slice nested_page (marker_pos nested_page) start)
        = 0%nat.
Proof.
  intros b.
  assert (raw_block nested_page = Some b) as Hb by (vm_compute; reflexivity).
  split; [done|]. by apply (raw_block_position nested_page b).
Defined.

Lemma extracted_block_shape_witness :
  let b := q "{'a':{'b':'c'}}" in
  _extract_json_block_from_text nested_page = Some b
  ∧ ∃ raw r,
      raw_block nested_page = Some raw
      ∧ b = sanitize raw
      ∧ b = String "{" r
      ∧ (String.length b ≤ String.length raw)%nat
      ∧ (String.length raw ≤ String.length nested_page)%nat.
Proof.
  intros b.
  assert (_extract_json_block_from_text nested_page = Some b) as Hb
    by (vm_compute; reflexivity).
  split; [done|]. by apply (extracted_block_shape nested_page b).
Defined.

Lemma raw_snippet_is_a_prefix_witness :
  let d := parse_failed_record "9.9.9.9" (q "{'ip': 1.2.3.4}") in
  let v := PStr (q "{'ip': 1.2.3.4}") in
  CheckIP_extract Json.loads "9.9.9.9" broken_page = Returns d
  ∧ d !! "raw" = Some v
  ∧ ∃ block r,
      _extract_json_block_from_text broken_page = Some block
      ∧ d !! "error" = Some (PStr "json_parse_failed")
      ∧ v = PStr (PyStr.take 200 block)
      ∧ PyStr.take 200 block = String "{" r
      ∧ (String.length (PyStr.take 200 block) ≤ 200)%nat
      ∧ block = PyStr.take 200 block ++ PyStr.drop 200 block
      ∧ ((String.length block ≤ 200)%nat → PyStr.take 200 block = block).
Proof.
  intros d v.
  assert (CheckIP_extract Json.loads "9.9.9.9" broken_page = Returns d)
    as Hd by (vm_compute; reflexivity).
  assert (d !! "raw" = Some v) as Hv by (vm_compute; reflexivity).
  split; [done|]. split; [done|].
  by apply (raw_snippet_is_a_prefix Json.loads "9.9.9.9" broken_page d v).
Defined.

Lemma promoted_fields_are_the_payloads_witness :
  let parsed : pydict :=
    {[ "ip" := PStr "1.1.1.1"; "score" := PStr "3"; "risk" := PStr "low" ]} in
  let d := promote_fields "9.9.9.9" parsed in
  CheckIP_extract Json.loads "9.9.9.9" demo_page = Returns d
  ∧ d !! "_raw_parsed" = Some (PDict parsed)
  ∧ d !! "ip" = Some (default (PStr "9.9.9.9") (parsed !! "ip"))
  ∧ (∀ k, k ∈ ["score"; "risk"; "is_blacklisted_external"; "operator";
               "hostname"; "asn"] → d !! k = parsed !! k)
  ∧ (∀ k, k ∉ ["ip"; "score"; "risk"; "is_blacklisted_external"; "operator";
               "hostname"; "asn"; "_raw_parsed"] → d !! k = None).
Proof.
  intros parsed d.
  assert (CheckIP_extract Json.loads "9.9.9.9" demo_page = Returns d)
    as Hd by (vm_compute; reflexivity).
  assert (d !! "_raw_parsed" = Some (PDict parsed)) as Hp
    by (vm_compute; reflexivity).
  split; [done|]. split; [done|].
  by apply (promoted_fields_are_the_payloads Json.loads "9.9.9.9" demo_page
              d parsed).
Defined.

Lemma error_taxonomy_witness :
  let e := PStr "http_error: timed out" in
  result_or_error "8.8.8.8" (CheckIP Json.loads "8.8.8.8" None 0 dead_net)
  !! "error" = Some e
  ∧ ((e = PStr "no_json_block_found"
      ∧ ∃ ua text, _choose_user_agent None 0 = Returns ua
                   ∧ _fetch_page "8.8.8.8" ua dead_net = Returns text
                   ∧ _extract_json_block_from_text text = None)
     ∨ (e = PStr "json_parse_failed"
        ∧ ∃ ua text block, _choose_user_agent None 0 = Returns ua
                           ∧ _fetch_page "8.8.8.8" ua dead_net = Returns text
                           ∧ _extract_json_block_from_text text = Some block)
     ∨ (∃ ua msg, _choose_user_agent None 0 = Returns ua
                  ∧ _fetch_page "8.8.8.8" ua dead_net
                    = Raises (Exc RequestException msg)
                  ∧ e = PStr ("http_error: " ++ msg))
     ∨ (∃ exc, CheckIP Json.loads "8.8.8.8" None 0 dead_net = Raises exc
               ∧ e = PStr ("exception: " ++ exc_str exc))).
Proof.
  intros e.
  assert (result_or_error "8.8.8.8"
            (CheckIP Json.loads "8.8.8.8" None 0 dead_net)
          !! "error" = Some e) as He by (vm_compute; reflexivity).
  split; [done|].
  by apply (error_taxonomy Json.loads "8.8.8.8" None 0 dead_net e).
Defined.

Lemma lookup_reads_the_lookup_url_only_witness :
  CheckIP Json.loads "1.1.1.1" None 0 demo_net
  = CheckIP Json.loads "1.1.1.1" None 0 (lookup_only_net "1.1.1.1").
Proof.
  apply (lookup_reads_the_lookup_url_only Json.loads "1.1.1.1" None 0
           demo_net (lookup_only_net "1.1.1.1")).
  intros ua _. reflexivity.
Defined.

Lemma batch_results_in_completion_order_witness :
  let ips := ["1.1.1.1"; "8.8.8.8"; "1.1.1.1"] in
  let order := [2; 0; 1]%nat in
  order ≡ₚ seq 0 (List.length ips)
  ∧ ∃ results,
      Start_batch Json.loads 2 ips [] flaky_world order = Returns results
      ∧ ∀ i k, order !! i = Some k →
               ∃ ip, ips !! k = Some ip
                     ∧ results !! i
                       = Some (result_or_error ip
                                 (process_ip Json.loads ip []
                                             (flaky_world k))).
Proof.
  intros ips order.
  apply (batch_results_in_completion_order Json.loads 2 ips [] flaky_world
           order); [lia|].
  unfold completion_order.
  replace ((map_to_list _).*1) with [2; 1; 0]%nat by (vm_compute; reflexivity).
  apply perm_skip, perm_swap.
Defined.

Lemma batch_results_up_to_order_witness :
  let ips := ["1.1.1.1"; "8.8.8.8"; "1.1.1.1"] in
  ∃ results1 results2,
    Start_batch Json.loads 2 ips [] flaky_world [2; 0; 1]%nat
    = Returns results1
    ∧ Start_batch Json.loads 2 ips [] flaky_world [2; 1; 0]%nat
      = Returns results2
    ∧ results1 ≡ₚ results2.
Proof.
  intros ips.
  apply (batch_results_up_to_order Json.loads 2 ips [] flaky_world
           [2; 0; 1]%nat [2; 1; 0]%nat); [lia | |]; unfold completion_order.
  - replace ((map_to_list _).*1) with [2; 1; 0]%nat
      by (vm_compute; reflexivity).
    apply perm_skip, perm_swap.
  - replace ((map_to_list _).*1) with [2; 1; 0]%nat
      by (vm_compute; reflexivity).
    done.
Defined.

Lemma one_task_changes_one_record_witness :
  let ips := ["1.1.1.1"; "8.8.8.8"; "1.1.1.1"] in
  let order := [2; 0; 1]%nat in
  ∃ results1 results2,
    Start_batch Json.loads 2 ips [] demo_world order = Returns results1
    ∧ Start_batch Json.loads 2 ips [] flaky_world order = Returns results2
    ∧ List.length results1 = List.length results2
    ∧ ∀ i, order !! i ≠ Some 1%nat → results1 !! i = results2 !! i.
Proof.
  intros ips order.
  apply (one_task_changes_one_record Json.loads 2 ips [] demo_world
           flaky_world order 1); [lia | |].
  - etrans; [apply perm_swap|]. apply perm_skip, perm_swap.
  - intros k Hk. unfold flaky_world.
    destruct (Nat.eqb_spec k 1) as [->|_]; [done | reflexivity].
Defined.

Lemma read_lines_strip_clean_witness :
  let ip := "8.8.8.8" in
  ip ∈ read_lines_strip sample_file
  ∧ ip ≠ EmptyString
  ∧ (∀ c r, ip = String c r → PyStr.is_space c = false)
  ∧ (∀ p c, ip = p ++ String c EmptyString → PyStr.is_space c = false)
  ∧ count_char PyStr.newline ip = 0%nat
  ∧ strip ip = ip.
Proof.
  intros ip.
  assert (ip ∈ read_lines_strip sample_file) as Hip.
  { replace (read_lines_strip sample_file) with ["1.1.1.1"; ip]
      by (vm_compute; reflexivity).
    repeat constructor. }
  split; [done|]. by apply (read_lines_strip_clean sample_file ip).
Defined.

Lemma scraped_values_stand_in_the_page_witness :
  let d := fallback_scrape "9.9.9.9" scrape_page in
  let v := PStr "42" in
  _extract_json_block_from_text scrape_page = None
  ∧ CheckIP_extract Json.loads "9.9.9.9" scrape_page = Returns d
  ∧ d !! "score" = Some v
  ∧ ((("score" : string) = "ip" ∧ v = PStr "9.9.9.9"
      ∧ PyStr.search (Re.field "ip") scrape_page = None)
     ∨ ∃ g pre ws1 ws2 post,
         v = PStr g
         ∧ scrape_page
           = pre ++ String PyStr.dquote
                      ("score" ++ String PyStr.dquote
                         (ws1 ++ String ":"
                            (ws2 ++ String PyStr.dquote
                               (g ++ String PyStr.dquote post))))
         ∧ all_chars PyStr.is_space ws1 = true
         ∧ all_chars PyStr.is_space ws2 = true
         ∧ g ≠ EmptyString
         ∧ count_char PyStr.dquote g = 0%nat
         ∧ ∀ k, (k < String.length pre)%nat →
                Re.field "score" (PyStr.drop k scrape_page) = None).
Proof.
  intros d v.
  assert (_extract_json_block_from_text scrape_page = None) as Hn
    by (vm_compute; reflexivity).
  assert (CheckIP_extract Json.loads "9.9.9.9" scrape_page = Returns d)
    as Hd by (vm_compute; reflexivity).
  assert (d !! "score" = Some v) as Hv by (vm_compute; reflexivity).
  split; [done|]. split; [done|]. split; [done|].
  apply (scraped_values_stand_in_the_page Json.loads "9.9.9.9" scrape_page
           "score" d v); [done | done | | done].
  repeat constructor.
Defined.

Lemma report_rows_of_a_batch_witness :
  let ips := ["1.1.1.1"; "8.8.8.8"; "1.1.1.1"] in
  let order := [2; 0; 1]%nat in
  let json_dumps : pyval → outcome string :=
    λ _, Raises (Exc OtherException "not serializable") in
  let py_str : pyval → string := λ _, "{...}" in
  ∃ results,
    Start_batch Json.loads 2 ips [] flaky_world order = Returns results
    ∧ List.length (report_rows json_dumps py_str results) = List.length ips
    ∧ ∀ i k, order !! i = Some k →
             ∃ ip row,
               ips !! k = Some ip
               ∧ report_rows json_dumps py_str results !! i = Some row
               ∧ dom row
                 = ({[ "ip"; "score"; "risk"; "error"; "raw_json" ]}
                    : gset string)
               ∧ (row !! "error" ≠ Some (PStr EmptyString) →
                  row !! "ip" = Some (PStr ip)
                  ∧ row !! "score" = Some (PStr EmptyString)
                  ∧ row !! "risk" = Some (PStr EmptyString)).
Proof.
  intros ips order json_dumps py_str.
  apply (report_rows_of_a_batch json_dumps py_str Json.loads 2 ips []
           flaky_world order); [lia|].
  unfold completion_order.
  replace ((map_to_list _).*1) with [2; 1; 0]%nat by (vm_compute; reflexivity).
  apply perm_skip, perm_swap.
Defined.
